(** * cat-normalize: token analytics and pipeline wiring

    A shallow embedding of the token usage sub-pipeline documented in
    [lambda/tokens-process/README.md] (the two token heuristics, the
    consolidation of archival and daily rows) and of the event rules
    that [OrchestratorConstruct] and [CatalogConstruct] add to the ETL
    stack.

    Conventions of the embedding.
    - A pandas DataFrame is the list of its rows, in index order.
    - A Python [str] is a Rocq [string], one [ascii] per code point: the
      model covers text whose code points are below 256.
    - A Python [dict] is the list of its bindings in insertion order.
    - A call that raises in Python returns [None] here. *)

From Stdlib Require Import ZArith QArith Qround String Ascii Sorted Permutation.
From Stdlib Require DecimalString.
From stdpp Require Import gmap strings list fin_maps.

Local Open Scope string_scope.
Local Open Scope list_scope.
#[local] Set Warnings "-register-all,-abstract-large-number,-clear-no-such-hyp".

(** ** Token usage rows *)

Module Tokens.

(** The [source] discriminator column. *)
Inductive Source := old_table | new_table.

#[global] Instance Source_eq_dec : EqDecision Source.
Proof. solve_decision. Defined.

(** One line of the token usage CSV.  The three price columns are
    DECIMAL(10,6) values, kept as integers counting millionths of a USD. *)
Record Row := mkRow {
  create_date : string;
  input_token : Z;
  output_token : Z;
  precio_token_input : Z;
  precio_token_output : Z;
  total_price : Z;
  pk : string;
  sk : string;
  source : Source
}.

#[global] Instance Row_eq_dec : EqDecision Row.
Proof. solve_decision. Defined.

(** The composite key used by [drop_duplicates(subset=['pk', 'sk'])]. *)
Definition row_key (r : Row) : string * string := (pk r, sk r).

Definition has_key (k : string * string) (r : Row) : Prop := row_key r = k.

#[global] Instance has_key_dec k r : Decision (has_key k r).
Proof. unfold has_key. apply _. Defined.

(** *** [DataFrame.drop_duplicates(subset=['pk', 'sk'], keep='first')]

    One pass in index order; a row is dropped when its key was met
    before. *)
Fixpoint drop_duplicates_seen (seen : gset (string * string)) (df : list Row)
  : list Row :=
  match df with
  | [] => []
  | r :: df' =>
      if decide (row_key r ∈ seen) then drop_duplicates_seen seen df'
      else r :: drop_duplicates_seen ({[row_key r]} ∪ seen) df'
  end.

Definition drop_duplicates (df : list Row) : list Row :=
  drop_duplicates_seen ∅ df.

(** *** [DataFrame.sort_values('create_date', ascending=False)]

    The dates are text ('2025-01-08 14:30:45') and compare as text.  The
    sort is taken to be stable: rows with equal dates keep their relative
    order. *)
Definition date_ge (x y : Row) : Prop :=
  String.leb (create_date y) (create_date x) = true.

Fixpoint insert_desc (r : Row) (df : list Row) : list Row :=
  match df with
  | [] => [r]
  | y :: df' =>
      if String.leb (create_date y) (create_date r) then r :: y :: df'
      else y :: insert_desc r df'
  end.

Definition sort_values (df : list Row) : list Row := foldr insert_desc [] df.

(** *** [consolidar_datos]

    [pd.concat([df_historico, df_nuevos])], then [drop_duplicates], then
    [sort_values]. *)
Definition consolidar_datos (datos_nuevos df_historico : list Row) : list Row :=
  let df_nuevos := datos_nuevos in
  let df_consolidado := df_historico ++ df_nuevos in
  let df_consolidado := drop_duplicates df_consolidado in
  sort_values df_consolidado.

End Tokens.

(** ** Python values and the builtins the lambdas call *)

Module Py.

(** What a deserialised DynamoDB attribute can be.  Numbers are kept to
    the integers. *)
Inductive value :=
| PyNone
| PyBool (b : bool)
| PyInt (z : Z)
| PyStr (s : string)
| PyList (l : list value)
| PyDict (d : list (string * value)).

Definition dquote : ascii := ascii_of_nat 34.
Definition squote : ascii := ascii_of_nat 39.
Definition backslash : ascii := ascii_of_nat 92.

Definition chr (c : ascii) : string := String c EmptyString.

(** Lookup of a key among the bindings of a dict. *)
Fixpoint assoc {A} (k : string) (d : list (string * A)) : option A :=
  match d with
  | [] => None
  | (k', v) :: d' => if decide (k = k') then Some v else assoc k d'
  end.

(** [o.get(k, dflt)]; AttributeError unless [o] is a dict. *)
Definition get (o : value) (k : string) (dflt : value) : option value :=
  match o with
  | PyDict d => Some (default dflt (assoc k d))
  | _ => None
  end.

(** [o.items()]; AttributeError unless [o] is a dict. *)
Definition items (o : value) : option (list (string * value)) :=
  match o with
  | PyDict d => Some d
  | _ => None
  end.

Definition isinstance_list (o : value) : bool :=
  match o with PyList _ => true | _ => false end.

Definition isinstance_dict (o : value) : bool :=
  match o with PyDict _ => true | _ => false end.

(** [k in o] for a dict [o]. *)
Definition contains (o : value) (k : string) : bool :=
  match o with
  | PyDict d => bool_decide (is_Some (assoc k d))
  | _ => false
  end.

(** [len(o)]; TypeError on None, booleans and numbers. *)
Definition len (o : value) : option Z :=
  match o with
  | PyStr s => Some (Z.of_nat (String.length s))
  | PyList l => Some (Z.of_nat (length l))
  | PyDict d => Some (Z.of_nat (length d))
  | _ => None
  end.

(** [for r in o]: a list yields its elements, a string its characters, a
    dict its keys; TypeError otherwise. *)
Definition iter (o : value) : option (list value) :=
  match o with
  | PyList l => Some l
  | PyStr s => Some (map (fun c => PyStr (chr c)) (list_ascii_of_string s))
  | PyDict d => Some (map (fun kv => PyStr (fst kv)) d)
  | _ => None
  end.

(** [x == 'literal'] *)
Definition eq_str (x : value) (s : string) : bool :=
  match x with
  | PyStr s' => bool_decide (s' = s)
  | _ => false
  end.

(** [x in [s1, s2, ...]] for a list of string literals. *)
Definition in_strs (x : value) (names : list string) : bool :=
  existsb (eq_str x) names.

(** [str.lower] on code points below 256: A-Z, and the upper-case
    letters of the Latin-1 supplement (0xC0-0xDE but the sign 0xD7). *)
Definition lower_char (c : ascii) : ascii :=
  let n := nat_of_ascii c in
  if (65 <=? n)%nat && (n <=? 90)%nat then ascii_of_nat (n + 32)
  else if (192 <=? n)%nat && (n <=? 222)%nat && negb (n =? 215)%nat
       then ascii_of_nat (n + 32)
  else c.

Definition lower_string (s : string) : string :=
  string_of_list_ascii (map lower_char (list_ascii_of_string s)).

(** [o.lower()]; AttributeError unless [o] is a string. *)
Definition lower (o : value) : option string :=
  match o with
  | PyStr s => Some (lower_string s)
  | _ => None
  end.

Definition decimal (z : Z) : string :=
  DecimalString.NilZero.string_of_int (Z.to_int z).

Definition hex_digit (n : nat) : ascii :=
  nth n (list_ascii_of_string "0123456789abcdef") "0"%char.

Definition hex2 (n : nat) : string :=
  String (hex_digit (n / 16)) (String (hex_digit (n mod 16)) EmptyString).

Definition join (sep : string) (parts : list string) : string :=
  String.concat sep parts.

(** *** [json.dumps] with its defaults ([ensure_ascii], separators
    [', '] and [': ']) *)
Definition json_escape (c : ascii) : string :=
  let n := nat_of_ascii c in
  if (n =? 34)%nat then String backslash (chr dquote)
  else if (n =? 92)%nat then String backslash (chr backslash)
  else if (n =? 10)%nat then String backslash "n"
  else if (n =? 13)%nat then String backslash "r"
  else if (n =? 9)%nat then String backslash "t"
  else if (n =? 8)%nat then String backslash "b"
  else if (n =? 12)%nat then String backslash "f"
  else if (n <? 32)%nat || (126 <? n)%nat
       then String backslash ("u00" +:+ hex2 n)
  else chr c.

Definition json_quote (s : string) : string :=
  String dquote
    (String.concat "" (map json_escape (list_ascii_of_string s)) +:+ chr dquote).

Fixpoint json_dumps (v : value) : string :=
  match v with
  | PyNone => "null"
  | PyBool true => "true"
  | PyBool false => "false"
  | PyInt z => decimal z
  | PyStr s => json_quote s
  | PyList l => "[" +:+ join ", " (map json_dumps l) +:+ "]"
  | PyDict d =>
      "{" +:+
      join ", " (map (fun kv => json_quote (fst kv) +:+ ": " +:+ json_dumps (snd kv)) d)
      +:+ "}"
  end.

(** *** [repr] and [str] *)
Definition has_char (c : ascii) (s : string) : bool :=
  existsb (Ascii.eqb c) (list_ascii_of_string s).

(** The quote [repr] picks: double quotes only when the text has a single
    quote and no double quote. *)
Definition repr_quote (s : string) : ascii :=
  if has_char squote s && negb (has_char dquote s) then dquote else squote.

Definition repr_escape (q c : ascii) : string :=
  let n := nat_of_ascii c in
  if Ascii.eqb c q || (n =? 92)%nat then String backslash (chr c)
  else if (n =? 9)%nat then String backslash "t"
  else if (n =? 10)%nat then String backslash "n"
  else if (n =? 13)%nat then String backslash "r"
  else if (n <? 32)%nat || (n =? 127)%nat
          || ((128 <=? n)%nat && (n <=? 160)%nat) || (n =? 173)%nat
       then String backslash ("x" +:+ hex2 n)
  else chr c.

Definition repr_str (s : string) : string :=
  let q := repr_quote s in
  String q
    (String.concat "" (map (repr_escape q) (list_ascii_of_string s)) +:+ chr q).

Fixpoint repr (v : value) : string :=
  match v with
  | PyNone => "None"
  | PyBool true => "True"
  | PyBool false => "False"
  | PyInt z => decimal z
  | PyStr s => repr_str s
  | PyList l => "[" +:+ join ", " (map repr l) +:+ "]"
  | PyDict d =>
      "{" +:+
      join ", " (map (fun kv => repr_str (fst kv) +:+ ": " +:+ repr (snd kv)) d)
      +:+ "}"
  end.

Definition str (v : value) : string :=
  match v with
  | PyStr s => s
  | _ => repr v
  end.

(** A [for] loop whose body may raise: the state is threaded through the
    elements in order and the first failure ends the loop. *)
Fixpoint for_each {A S} (xs : list A) (body : S -> A -> option S) (s : S)
  : option S :=
  match xs with
  | [] => Some s
  | x :: xs' => s' ← body s x; for_each xs' body s'
  end.

(** [sum([f(x) for x in xs])] *)
Definition sum_map {A} (f : A -> option Z) (xs : list A) : option Z :=
  ns ← mapM f xs; Some (foldr Z.add 0%Z ns).

End Py.

(** ** The two token heuristics *)

Module Heuristics.
Import Py.

Local Open Scope Z_scope.

(** *** Legacy heuristic (archival lambda)

    The body of the inner loop of [extract_tokens_from_messagemap_OLD]:
    what one content item adds to the running totals. *)
Definition item_step_OLD (role : string) (totals : Z * Z) (item : value)
  : option (Z * Z) :=
  let '(input_tokens, output_tokens) := totals in
  if isinstance_dict item && contains item "body" then
    body ← get item "body" (PyStr "");
    n ← len body;
    let tokens := n / 4 in
    if in_strs (PyStr role) ["user"; "system"] then
      Some (input_tokens + tokens, output_tokens)
    else if in_strs (PyStr role) ["assistant"; "bot"] then
      Some (input_tokens, output_tokens + tokens)
    else Some (input_tokens, output_tokens)
  else Some (input_tokens, output_tokens).

(** The body of the outer loop: one entry of the message map. *)
Definition entry_step_OLD (totals : Z * Z) (entry : string * value)
  : option (Z * Z) :=
  let '(key, value) := entry in
  r ← get value "role" (PyStr "");
  role ← lower r;
  content ← get value "content" (PyList []);
  match content with
  | PyList l => for_each l (item_step_OLD role) totals
  | _ => Some totals
  end.

Definition extract_tokens_from_messagemap_OLD (message_map : value)
  : option (Z * Z) :=
  entries ← items message_map;
  for_each entries entry_step_OLD (0, 0).

(** *** Enhanced heuristic (daily lambda) *)

(** Modelled from the spec: [calculate_tokens] is called by
    [process_content_item] but not listed with it; it is the README's
    "Token Calculation: LENGTH(text) / 4", the same integer division as in
    the legacy heuristic. *)
Definition calculate_tokens (text : value) : option Z :=
  n ← len text; Some (n / 4).

(** The branch the [if]/[elif] chain on [content_type] takes;
    [arm_other] stands for a tag that matches none of the three tests. *)
Inductive arm := arm_text | arm_toolUse | arm_toolResult | arm_other.

Definition arm_of (content_type : value) : arm :=
  if eq_str content_type "text" then arm_text
  else if eq_str content_type "toolUse" then arm_toolUse
  else if eq_str content_type "toolResult" then arm_toolResult
  else arm_other.

(** What a call of [process_content_item] hands back, line by line as
    listed.  The outer [None] is a raised error.  [Some None] is Python's
    [None], handed back where the function body ends without a [return]:
    after the assignment to [tokens] in the text branch, and for a tag
    that matches no branch (the chain has no [else]).  [parent_role] is
    read nowhere. *)
Definition process_content_item_result (item parent_role : value)
  : option (option (Z * Z)) :=
  content_type ← get item "content_type" (PyStr "text");
  match arm_of content_type with
  | arm_text =>
      body ← get item "body" (PyStr "");
      tokens ← calculate_tokens body;
      Some None
  | arm_toolUse =>
      body ← get item "body" (PyDict []);
      tool_input ← get body "input" (PyDict []);
      tokens ← calculate_tokens (PyStr (json_dumps tool_input));
      Some (Some (0, tokens))
  | arm_toolResult =>
      body ← get item "body" (PyDict []);
      result_content ← get body "content" (PyList []);
      rs ← iter result_content;
      tokens ← sum_map (fun r => calculate_tokens (PyStr (str r))) rs;
      Some (Some (tokens, 0))
  | arm_other => Some None
  end.

(** The pair of counts a call hands back; [None] when it hands back no
    pair, be it that the call raised or that it ended without a
    [return]. *)
Definition process_content_item (item parent_role : value) : option (Z * Z) :=
  result ← process_content_item_result item parent_role; result.

(** The branch taken for an item. *)
Definition dispatch (item : value) : option arm :=
  content_type ← get item "content_type" (PyStr "text");
  Some (arm_of content_type).

Section Scan.
(** [process_node_content] walks the content of one node and calls
    [process_content_item]; it is not listed, and the scan is stated
    over any such walker. *)
Variable process_node_content : value -> value -> option (Z * Z).

Definition node_step_v2 (totals : Z * Z) (node : string * value)
  : option (Z * Z) :=
  let '(input_tokens, output_tokens) := totals in
  let '(node_id, node_data) := node in
  role ← get node_data "role" PyNone;
  content ← get node_data "content" (PyList []);
  '(node_input, node_output) ← process_node_content content role;
  Some (input_tokens + node_input, output_tokens + node_output).

Definition extract_tokens_from_messagemap_v2 (message_map : value)
  : option (Z * Z) :=
  nodes ← items message_map;
  for_each nodes node_step_v2 (0, 0).
End Scan.







End Heuristics.

(** ** Price computation *)

Module Pricing.
Local Open Scope Z_scope.

(** Modelled from the spec: the price computation is not in the listed
    code.  Unit prices are the README's "Input Cost: $0.003 per 1K
    tokens" and "Output Cost: $0.015 per 1K tokens"; an amount is
    [tokens / 1000 * unit price] over the rationals, then quantised to six
    fractional digits (DECIMAL(10,6)), half rounding up. *)
Definition price_in : Q := (3 # 1000)%Q.
Definition price_out : Q := (15 # 1000)%Q.

(** Modelled from the spec: [tokens / 1000 * unit price]. *)
Definition amount (tokens : Z) (unit_price : Q) : Q :=
  (inject_Z tokens / inject_Z 1000 * unit_price)%Q.

(** Modelled from the spec: the fixed precision of six fractional digits.
    A rational becomes a count of millionths, rounded to the nearest. *)
Definition quantize6 (q : Q) : Z :=
  Qfloor (q * inject_Z 1000000 + (1 # 2))%Q.

(** Modelled from the spec: the three price columns of a row. *)
Definition precio_token_input (input_tokens : Z) : Z :=
  quantize6 (amount input_tokens price_in).

Definition precio_token_output (output_tokens : Z) : Z :=
  quantize6 (amount output_tokens price_out).

Definition total_price (input_tokens output_tokens : Z) : Z :=
  quantize6 (amount input_tokens price_in + amount output_tokens price_out)%Q.

(** The rational a count of millionths stands for. *)
Definition of_micro (m : Z) : Q := (inject_Z m / inject_Z 1000000)%Q.

Definition pad6 (s : string) : string :=
  string_of_list_ascii (replicate (6 - String.length s)%nat "0"%char) +:+ s.

(** The text of a non-negative decimal with exactly six fractional
    digits. *)
Definition format6 (m : Z) : string :=
  Py.decimal (m / 1000000) +:+ "." +:+ pad6 (Py.decimal (m mod 1000000)).

End Pricing.

(** ** The daily job around the consolidation *)

Module Job.
Import Tokens.

Inductive s3_error := NoSuchKey (key : string).

Inductive log_line := HistoricalNotFound (key : string).

(** Modelled from the spec: the bucket maps an object key to the rows of
    the CSV stored there, and reading a key that is absent fails. *)
Definition get_object (bucket : gmap string (list Row)) (key : string)
  : s3_error + list Row :=
  match bucket !! key with
  | Some rows => inr rows
  | None => inl (NoSuchKey key)
  end.

(** Modelled from the spec: reading the archival CSV is not in the listed
    code.  A missing object is caught, logged and read as no rows. *)
Definition leer_historico (bucket : gmap string (list Row)) (key : string)
  : list Row * list log_line :=
  match get_object bucket key with
  | inr rows => (rows, [])
  | inl (NoSuchKey k) => ([], [HistoricalNotFound k])
  end.

(** Modelled from the spec: one run of the daily job.  The consolidated
    object is overwritten with the full result. *)
Definition run_daily (historical_key output_key : string)
    (datos_nuevos : list Row) (bucket : gmap string (list Row))
  : s3_error + (gmap string (list Row) * list log_line) :=
  let '(df_historico, logs) := leer_historico bucket historical_key in
  let df := consolidar_datos datos_nuevos df_historico in
  inr (<[output_key := df]> bucket, logs).

End Job.

(** ** The event rules of the ETL stack *)

Module Orchestrator.

(** A value filter of an event pattern: a literal or [{ prefix: p }]. *)
Inductive filter_value :=
| Literal (s : string)
| Prefix (p : string).

(** [detail] lists, for each constrained leaf of the detail object, its
    path and the values accepted there. *)
Record EventPattern := {
  source : list string;
  detailType : list string;
  detail : list (list string * list filter_value)
}.

(** [new targets.AwsApi({ service, action, parameters })] *)
Record Target := AwsApi {
  service : string;
  action : string;
  parameters : list (string * string)
}.

Record Rule := {
  ruleName : string;
  eventPattern : EventPattern;
  targets : list Target
}.

Record OrchestratorProps := {
  environment : string;
  dataBucket : string;        (* dataBucket.bucketName *)
  cleanPrefix : string;
  glueJobName : string
}.

(** [new events.Rule(this, "OnCsvArrived", ...)] of
    [OrchestratorConstruct], with its one [rule.addTarget]. *)
Definition OnCsvArrived (props : OrchestratorProps) : Rule := {|
  ruleName := environment props +:+ "-cat-on-csv-arrived";
  eventPattern := {|
    source := ["aws.s3"];
    detailType := ["Object Created"];
    detail := [ (["bucket"; "name"], [Literal (dataBucket props)]);
                (["object"; "key"], [Prefix (cleanPrefix props)]) ]
  |};
  targets := [AwsApi "Glue" "startJobRun" [("JobName", glueJobName props)]]
|}.

Record CatalogProps := {
  cat_environment : string;
  crawlerName : option string;
  cat_glueJobName : string
}.

(** [crawlerName || `cat-${environment}-curated-crawler`] *)
Definition dynamicCrawlerName (props : CatalogProps) : string :=
  match crawlerName props with
  | Some n => if decide (n = "") then "cat-" +:+ cat_environment props +:+ "-curated-crawler" else n
  | None => "cat-" +:+ cat_environment props +:+ "-curated-crawler"
  end.

(** [new events.Rule(this, "CrawlerTriggerRule", ...)] of
    [CatalogConstruct], with its one target. *)
Definition CrawlerTriggerRule (props : CatalogProps) : Rule := {|
  ruleName := cat_environment props +:+ "-cat-crawler-trigger";
  eventPattern := {|
    source := ["aws.glue"];
    detailType := ["Glue Job State Change"];
    detail := [ (["jobName"], [Literal (cat_glueJobName props)]);
                (["state"], [Literal "SUCCEEDED"]) ]
  |};
  targets := [AwsApi "Glue" "startCrawler" [("Name", dynamicCrawlerName props)]]
|}.

(** The fields of [EtlConfig] the rules depend on. *)
Record EtlConfig := {
  cfg_environment : string;
  dataBucketName : string;
  cfg_cleanPrefix : string
}.

(** [TransformJobConstruct.jobName] *)
Definition jobName (env : string) : string := "cat-" +:+ env +:+ "-etl2-parquet".

Definition orchestrator_props (config : EtlConfig) : OrchestratorProps := {|
  environment := cfg_environment config;
  dataBucket := dataBucketName config;
  cleanPrefix := cfg_cleanPrefix config;
  glueJobName := jobName (cfg_environment config)
|}.

Definition catalog_props (config : EtlConfig) : CatalogProps := {|
  cat_environment := cfg_environment config;
  crawlerName := None;
  cat_glueJobName := jobName (cfg_environment config)
|}.

(** The rules [CatEtlStack] creates, in construction order. *)
Definition CatEtlStack_rules (config : EtlConfig) : list Rule :=
  [CrawlerTriggerRule (catalog_props config);
   OnCsvArrived (orchestrator_props config)].

(** An event as the bus delivers it; the detail object is given by its
    leaves. *)
Record Event := {
  ev_source : string;
  ev_detail_type : string;
  ev_detail : list (list string * string)
}.

Fixpoint detail_at (path : list string) (leaves : list (list string * string))
  : option string :=
  match leaves with
  | [] => None
  | (p, v) :: leaves' => if decide (path = p) then Some v else detail_at path leaves'
  end.

(** Pattern matching of the event bus: every constrained field must be
    present in the event and equal one of the listed values. *)
Definition filter_matches (x : string) (f : filter_value) : bool :=
  match f with
  | Literal s => bool_decide (x = s)
  | Prefix p => String.prefix p x
  end.

Definition field_matches (e : Event) (c : list string * list filter_value) : bool :=
  match detail_at (fst c) (ev_detail e) with
  | Some x => existsb (filter_matches x) (snd c)
  | None => false
  end.

Definition matches (p : EventPattern) (e : Event) : bool :=
  bool_decide (ev_source e ∈ source p)
  && bool_decide (ev_detail_type e ∈ detailType p)
  && forallb (field_matches e) (detail p).

(** The targets a rule invokes for one event. *)
Definition fire (r : Rule) (e : Event) : list Target :=
  if matches (eventPattern r) e then targets r else [].

(** The targets a set of rules invokes for one event. *)
Definition fire_all (rules : list Rule) (e : Event) : list Target :=
  flat_map (fun r => fire r e) rules.

End Orchestrator.

(** ** Sample data *)

Module Samples.
Import Tokens Py.

(** The line shown in the README for the historical CSV. *)
Definition archived : Row :=
  mkRow "2025-01-08 14:30:45" 1234 5678 3702 85170 88872 "PK#123" "SK#456" old_table.

(** A freshly computed line for the same conversation. *)
Definition recomputed : Row :=
  mkRow "2025-12-02 09:00:00" 10 20 30 300 330 "PK#123" "SK#456" new_table.

Definition fresh : Row :=
  mkRow "2025-12-03 09:00:00" 1 2 3 30 33 "PK#124" "SK#457" new_table.

(** The content item of scenario C: a tool call whose input is the object
    with the one binding a = bcd. *)
Definition tool_input_C : value := PyDict [("a", PyStr "bcd")].

Definition tool_call_C : value :=
  PyDict [("content_type", PyStr "toolUse");
          ("body", PyDict [("input", tool_input_C)])].

Definition tool_result : value :=
  PyDict [("content_type", PyStr "toolResult");
          ("body", PyDict [("content", PyList [PyStr "abcdefgh"; PyStr "12345"])])].

(** An item that carries no tag at all. *)
Definition untagged : list (string * value) := [("body", PyStr "abcdefgh")].

(** An item with a tag outside the three known ones. *)
Definition image_item : list (string * value) :=
  [("content_type", PyStr "image"); ("body", PyStr "abcdefgh")].

(** The production wiring, as in [prodEtlConfig]. *)
Definition prod_config : Orchestrator.EtlConfig := {|
  Orchestrator.cfg_environment := "prod";
  Orchestrator.dataBucketName := "cat-prod-normalize-reports";
  Orchestrator.cfg_cleanPrefix := "reports/etl-process1/"
|}.

(** The Object Created event of the storage service for one object. *)
Definition object_created (bucket key : string) : Orchestrator.Event := {|
  Orchestrator.ev_source := "aws.s3";
  Orchestrator.ev_detail_type := "Object Created";
  Orchestrator.ev_detail :=
    [(["bucket"; "name"], bucket); (["object"; "key"], key);
     (["reason"], "PutObject")]
|}.

Definition node (role : option value) (content : list value) : value :=
  PyDict (match role with Some r => [("role", r)] | None => [] end
          ++ [("content", PyList content)]).

End Samples.

(** ** Totals of a scan *)

Module Totals.

(** Componentwise sum of two pairs (input tokens, output tokens). *)
Definition add (t c : Z * Z) : Z * Z := ((t.1 + c.1)%Z, (t.2 + c.2)%Z).

(** What one entry adds when a loop body is started from zero. *)
Definition contribution {A} (step : Z * Z -> A -> option (Z * Z)) (x : A)
  : option (Z * Z) :=
  step (0%Z, 0%Z) x.

(** Both sides are at least zero. *)
Definition nonneg (t : Z * Z) : Prop := (0 <= t.1)%Z /\ (0 <= t.2)%Z.

End Totals.

(** ** The ETL stack around the rules *)

Module EtlStack.
Import Orchestrator.

Inductive error :=
| MissingRequired (field : string)
| UnknownEnvironment (name : string).

(** [!value] for a field that holds a string or is undefined. *)
Definition falsy (v : option string) : bool :=
  match v with
  | None => true
  | Some s => bool_decide (s = "")
  end.

(** [a || b] with [b] a string. *)
Definition or_else (a : option string) (b : string) : string :=
  match a with
  | Some s => if decide (s = "") then b else s
  | None => b
  end.

(** The [for] loop of [validateConfig]: the first field of the list that
    is falsy in the configuration object, if any. *)
Fixpoint first_missing (fields : list string) (config : gmap string string)
  : option string :=
  match fields with
  | [] => None
  | field :: fields' =>
      if falsy (config !! field) then Some field
      else first_missing fields' config
  end.

Definition required : list string :=
  ["dataBucketName"; "cleanPrefix"; "curatedPrefix"; "athenaResultsPrefix"].

(** [CatEtlStack.validateConfig]; the configuration object is given by its
    string fields. *)
Definition validateConfig (config : gmap string string) : error + unit :=
  match first_missing required config with
  | Some field => inl (MissingRequired field)
  | None => inr tt
  end.

(** A field spliced into a template string. *)
Definition splice (v : option string) : string := default "undefined" v.

(** The part of the configuration the rules read. *)
Definition etl_config_of (config : gmap string string) : EtlConfig := {|
  cfg_environment := splice (config !! "environment");
  dataBucketName := splice (config !! "dataBucketName");
  cfg_cleanPrefix := splice (config !! "cleanPrefix")
|}.

(** The constructor of [CatEtlStack], as far as the event rules go:
    validation first, then the constructs. *)
Definition CatEtlStack (config : gmap string string) : error + list Rule :=
  match validateConfig config with
  | inl e => inl e
  | inr _ => inr (CatEtlStack_rules (etl_config_of config))
  end.

(** [TransformJobConstruct]: where the job script is deployed when no
    [scriptS3Uri] is given. *)
Definition scriptsPrefix (outputPrefix : string) : string :=
  outputPrefix +:+ "scripts/".

Definition scriptKey (outputPrefix : string) : string :=
  scriptsPrefix outputPrefix +:+ "glue_job_script.py".

(** The key of the object the bucket deployment creates, if it deploys. *)
Definition deployed_script (scriptS3Uri : option string) (outputPrefix : string)
  : option string :=
  if falsy scriptS3Uri then Some (scriptKey outputPrefix) else None.

(** [testEtlConfig] and [prodEtlConfig], the fields the rules read. *)
Definition testEtlConfig : EtlConfig := {|
  cfg_environment := "test";
  dataBucketName := "cat-test-normalize-reports";
  cfg_cleanPrefix := "reports/etl-process1/"
|}.

Definition prodEtlConfig : EtlConfig := {|
  cfg_environment := "prod";
  dataBucketName := "cat-prod-normalize-reports";
  cfg_cleanPrefix := "reports/etl-process1/"
|}.

(** [bin/cat-normalize.ts]: the environment comes from the context, else
    from the ENVIRONMENT variable, else is test; anything but test and
    prod is refused; the ETL stack gets its name and its configuration
    from it. *)
Definition select_environment (context env_var : option string) : string :=
  or_else context (or_else env_var "test").

Definition select_etl (context env_var : option string)
  : error + (string * EtlConfig) :=
  let environment := select_environment context env_var in
  if bool_decide (environment <> "test") && bool_decide (environment <> "prod")
  then inl (UnknownEnvironment environment)
  else
    let etlConfig :=
      if bool_decide (environment = "prod") then prodEtlConfig else testEtlConfig in
    inr ("cat-" +:+ environment +:+ "-etl2-stack", etlConfig).

(** The Glue Job State Change event of the job service. *)
Definition job_state_change (job state : string) : Event := {|
  ev_source := "aws.glue";
  ev_detail_type := "Glue Job State Change";
  ev_detail := [(["jobName"], job); (["state"], state)]
|}.

End EtlStack.

(** * Properties *)

(** ** Consolidation *)

Section Consolidation.
Import Tokens.

Implicit Types (df A B : list Row) (r a b : Row) (k : string * string)
  (seen : gset (string * string)).

(** Set reasoning about keys, with the keys taken as atoms. *)
Local Ltac keys_solver :=
  repeat match goal with
    | H : context [row_key ?r] |- _ =>
        let k' := fresh "k" in set (k' := row_key r) in *; clearbody k'
    | |- context [row_key ?r] =>
        let k' := fresh "k" in set (k' := row_key r) in *; clearbody k'
    end;
  set_solver.

(** Among the rows of one key, [drop_duplicates] keeps the first, unless
    the key was met before. *)
Lemma drop_duplicates_seen_filter k seen df :
  filter (has_key k) (drop_duplicates_seen seen df)
  = if decide (k ∈ seen) then [] else take 1 (filter (has_key k) df).
Proof.
  revert seen. induction df as [|r df IH]; intros seen; simpl.
  - by destruct (decide (k ∈ seen)).
  - destruct (decide (row_key r ∈ seen)) as [Hin|Hnin].
    + rewrite IH. destruct (decide (k ∈ seen)) as [|Hk]; [done|].
      rewrite filter_cons_False; [done|]. unfold has_key. congruence.
    + destruct (decide (has_key k r)) as [Hk|Hk].
      * rewrite !filter_cons_True by done. rewrite IH.
        unfold has_key in Hk. subst k.
        rewrite decide_True by keys_solver.
        by rewrite decide_False by done.
      * rewrite !filter_cons_False by done. rewrite IH.
        unfold has_key in Hk.
        destruct (decide (k ∈ seen)).
        -- by rewrite decide_True by keys_solver.
        -- by rewrite decide_False by keys_solver.
Qed.

Lemma drop_duplicates_filter k df :
  filter (has_key k) (drop_duplicates df) = take 1 (filter (has_key k) df).
Proof.
  unfold drop_duplicates. rewrite drop_duplicates_seen_filter.
  by rewrite decide_False by keys_solver.
Qed.

Lemma drop_duplicates_seen_elem r seen df :
  r ∈ drop_duplicates_seen seen df → r ∈ df ∧ row_key r ∉ seen.
Proof.
  revert seen. induction df as [|x df IH]; intros seen; simpl.
  - by intros ?%elem_of_nil.
  - destruct (decide (row_key x ∈ seen)).
    + intros [??]%IH. split; [by right|done].
    + intros [->|[??]%IH]%elem_of_cons; [split; [by left|done]|].
      split; [by right|keys_solver].
Qed.

Lemma drop_duplicates_seen_NoDup seen df :
  NoDup (row_key <$> drop_duplicates_seen seen df).
Proof.
  revert seen. induction df as [|x df IH]; intros seen; simpl.
  - constructor.
  - destruct (decide (row_key x ∈ seen)); [apply IH|].
    rewrite fmap_cons. constructor; [|apply IH].
    intros Hin. apply list_elem_of_fmap_1 in Hin as (r & Hk & Hr).
    apply drop_duplicates_seen_elem in Hr as [_ Hr]. keys_solver.
Qed.

(** A frame without repeated keys, none of them met before, is left as
    it is. *)
Lemma drop_duplicates_seen_id seen df :
  NoDup (row_key <$> df) → (∀ r, r ∈ df → row_key r ∉ seen) →
  drop_duplicates_seen seen df = df.
Proof.
  revert seen. induction df as [|x df IH]; intros seen Hnd Hseen; [done|].
  simpl. rewrite fmap_cons in Hnd. apply NoDup_cons in Hnd as [Hx Hnd].
  rewrite decide_False by (apply Hseen; by left).
  f_equal. apply IH; [done|]. intros r Hr.
  assert (row_key r ≠ row_key x).
  { intros Heq. apply Hx. rewrite <- Heq. by apply list_elem_of_fmap_2. }
  assert (row_key r ∉ seen) by (apply Hseen; by right).
  keys_solver.
Qed.

(** Rows whose keys were all met before are all dropped. *)
Lemma drop_duplicates_seen_all_seen seen df :
  (∀ r, r ∈ df → row_key r ∈ seen) → drop_duplicates_seen seen df = [].
Proof.
  induction df as [|x df IH]; intros Hseen; [done|].
  simpl. rewrite decide_True by (apply Hseen; by left).
  apply IH. intros r Hr. apply Hseen. by right.
Qed.

Lemma drop_duplicates_seen_app seen df1 df2 :
  drop_duplicates_seen seen (df1 ++ df2)
  = drop_duplicates_seen seen df1
    ++ drop_duplicates_seen (list_to_set (row_key <$> df1) ∪ seen) df2.
Proof.
  revert seen. induction df1 as [|x df1 IH]; intros seen; simpl.
  - f_equal. keys_solver.
  - destruct (decide (row_key x ∈ seen)).
    + rewrite IH. do 2 f_equal. keys_solver.
    + simpl. rewrite IH. do 3 f_equal. keys_solver.
Qed.

(** The keys that survive are the keys that came in. *)
Lemma drop_duplicates_seen_keys k seen df :
  k ∈ row_key <$> drop_duplicates_seen seen df
  ↔ k ∈ row_key <$> df ∧ k ∉ seen.
Proof.
  revert seen. induction df as [|x df IH]; intros seen; simpl.
  - rewrite elem_of_nil. tauto.
  - destruct (decide (row_key x ∈ seen)).
    + rewrite IH, ?fmap_cons, elem_of_cons. keys_solver.
    + rewrite ?fmap_cons, !elem_of_cons, IH.
      destruct (decide (k = row_key x)); keys_solver.
Qed.

Lemma insert_desc_Permutation r df : insert_desc r df ≡ₚ r :: df.
Proof.
  induction df as [|y df IH]; simpl; [done|].
  destruct (String.leb _ _); [done|].
  rewrite IH. apply perm_swap.
Qed.

Lemma sort_values_Permutation df : sort_values df ≡ₚ df.
Proof.
  induction df as [|r df IH]; simpl; [done|].
  by rewrite insert_desc_Permutation, IH.
Qed.

Lemma insert_desc_Sorted r df :
  Sorted date_ge df → Sorted date_ge (insert_desc r df).
Proof.
  induction 1 as [|y df Hs IH Hhd]; simpl.
  - repeat constructor.
  - destruct (String.leb (create_date y) (create_date r)) eqn:Hle.
    + constructor; [by constructor|]. by constructor.
    + constructor; [done|].
      assert (date_ge y r) as Hyr.
      { unfold date_ge.
        destruct (String.leb_total (create_date y) (create_date r)); congruence. }
      destruct Hhd as [|z df' Hz]; simpl.
      * by constructor.
      * destruct (String.leb (create_date z) (create_date r)); by constructor.
Qed.

Lemma sort_values_Sorted df : Sorted date_ge (sort_values df).
Proof.
  induction df; simpl; [constructor|]. by apply insert_desc_Sorted.
Qed.

(** The sort is stable, so a frame already in descending date order is
    returned as it is. *)
Lemma sort_values_id df : Sorted date_ge df → sort_values df = df.
Proof.
  induction 1 as [|y df Hs IH Hhd]; simpl; [done|].
  rewrite IH. destruct Hhd as [|z df' Hz]; simpl; [done|].
  unfold date_ge in Hz. by rewrite Hz.
Qed.

Lemma Permutation_short (l1 l2 : list Row) :
  l1 ≡ₚ l2 → (length l2 ≤ 1)%nat → l1 = l2.
Proof.
  intros Hp Hlen. destruct l2 as [|x [|??]]; simpl in Hlen; [| |lia].
  - by apply Permutation_nil_r.
  - by apply Permutation_singleton_r.
Qed.

(** Consolidation keeps, for every key, the first row of the
    concatenation archival-then-new. *)
Lemma consolidar_datos_first_occurrence k A B :
  filter (has_key k) (consolidar_datos B A)
  = take 1 (filter (has_key k) (A ++ B)).
Proof.
  unfold consolidar_datos.
  rewrite <- drop_duplicates_filter.
  apply Permutation_short.
  - by rewrite sort_values_Permutation.
  - rewrite drop_duplicates_filter, length_take. lia.
Qed.

Lemma consolidar_datos_Permutation A B :
  consolidar_datos B A ≡ₚ drop_duplicates (A ++ B).
Proof. apply sort_values_Permutation. Qed.

Lemma consolidar_datos_NoDup A B :
  NoDup (row_key <$> consolidar_datos B A).
Proof.
  rewrite consolidar_datos_Permutation. apply drop_duplicates_seen_NoDup.
Qed.

Lemma consolidar_datos_keys k A B :
  k ∈ row_key <$> consolidar_datos B A ↔ k ∈ row_key <$> (A ++ B).
Proof.
  rewrite consolidar_datos_Permutation. unfold drop_duplicates.
  rewrite drop_duplicates_seen_keys. keys_solver.
Qed.

(** Dedup-then-sort, the part of the consolidation after the
    concatenation, fixes every consolidated frame. *)
Lemma consolidar_datos_fixed A B :
  sort_values (drop_duplicates (consolidar_datos B A)) = consolidar_datos B A.
Proof.
  unfold drop_duplicates.
  rewrite drop_duplicates_seen_id; [| apply consolidar_datos_NoDup | keys_solver].
  apply sort_values_id, sort_values_Sorted.
Qed.

(** C1. Consolidation concatenates archival-then-new and keeps, for
    every key (pk, sk), the first row in that order.  So when an
    archival row [a] (tagged old_table) and a new row [b] (tagged
    new_table) share a key, the row of that key in the output is the
    first archival row with the key, which is [a] itself when the
    archive has no repeated key, and [b] is not in the output.  The two
    rows differ at least by their tag, so nothing more is asked of their
    payloads. *)
Theorem consolidar_datos_archival_wins A B a b :
  Forall (λ r, source r = old_table) A →
  Forall (λ r, source r = new_table) B →
  a ∈ A → b ∈ B → row_key a = row_key b →
  let out := consolidar_datos B A in
  (∀ k, filter (has_key k) out = take 1 (filter (has_key k) (A ++ B)))
  ∧ filter (has_key (row_key a)) out = take 1 (filter (has_key (row_key a)) A)
  ∧ (b ∉ out)
  ∧ (NoDup (row_key <$> A) → filter (has_key (row_key a)) out = [a]).
Proof.
  intros HA HB Ha Hb Hkey out.
  assert (∃ a0 rest, filter (has_key (row_key a)) A = a0 :: rest) as (a0 & rest & Hf).
  { destruct (filter (has_key (row_key a)) A) as [|a0 rest] eqn:Hf; [|by eauto].
    assert (a ∈ filter (has_key (row_key a)) A) as Hin
      by (by apply list_elem_of_filter).
    rewrite Hf in Hin. by apply elem_of_nil in Hin. }
  assert (filter (has_key (row_key a)) out = [a0]) as Hout.
  { unfold out. rewrite consolidar_datos_first_occurrence, filter_app, Hf.
    reflexivity. }
  assert (a0 ∈ A) as Ha0.
  { assert (a0 ∈ filter (has_key (row_key a)) A) as Hin
      by (rewrite Hf; by left).
    by apply list_elem_of_filter in Hin as [_ ?]. }
  split; [intros k; apply consolidar_datos_first_occurrence|].
  split; [by rewrite Hout, Hf|].
  split.
  - intros Hbout.
    assert (b ∈ filter (has_key (row_key a)) out) as Hin.
    { apply list_elem_of_filter. split; [by unfold has_key|done]. }
    rewrite Hout in Hin. apply list_elem_of_singleton in Hin. subst a0.
    rewrite Forall_forall in HA, HB.
    specialize (HA _ Ha0). specialize (HB _ Hb). congruence.
  - intros Hnd. rewrite Hout. f_equal.
    assert (a0 ∈ filter (has_key (row_key a)) A) as Hin
      by (rewrite Hf; by left).
    apply list_elem_of_filter in Hin as [Hk _]. unfold has_key in Hk.
    clear -Hnd Ha Ha0 Hk.
    induction A as [|x A IH]; [by apply elem_of_nil in Ha|].
    rewrite fmap_cons in Hnd. apply NoDup_cons in Hnd as [Hx Hnd].
    apply elem_of_cons in Ha as [->|Ha]; apply elem_of_cons in Ha0 as [->|Ha0];
      [done| | |by apply IH].
    + exfalso. apply Hx. rewrite <- Hk. by apply list_elem_of_fmap_2.
    + exfalso. apply Hx. rewrite Hk. by apply list_elem_of_fmap_2.
Qed.

Lemma consolidar_datos_archival_wins_witness :
  let A := [Samples.archived] in
  let B := [Samples.recomputed; Samples.fresh] in
  (Forall (λ r, source r = old_table) A
   ∧ Forall (λ r, source r = new_table) B
   ∧ Samples.archived ∈ A ∧ Samples.recomputed ∈ B
   ∧ row_key Samples.archived = row_key Samples.recomputed)
  ∧ (Samples.recomputed ∉ consolidar_datos B A)
  ∧ filter (has_key (row_key Samples.archived)) (consolidar_datos B A)
    = [Samples.archived].
Proof.
  intros A B.
  assert (Forall (λ r, source r = old_table) A) as HA
    by (repeat constructor).
  assert (Forall (λ r, source r = new_table) B) as HB
    by (repeat constructor).
  assert (Samples.archived ∈ A) as Ha by (apply elem_of_cons; by left).
  assert (Samples.recomputed ∈ B) as Hb by (apply elem_of_cons; by left).
  assert (row_key Samples.archived = row_key Samples.recomputed) as Hk
    by reflexivity.
  destruct (consolidar_datos_archival_wins A B _ _ HA HB Ha Hb Hk)
    as (_ & _ & Hout & Hin).
  split; [done|]. split; [done|].
  apply Hin. repeat constructor. apply not_elem_of_nil.
Defined.

(** Scenario B of the specification: the archived row wins the shared
    key, the fresh row is kept, newest first. *)
Example consolidar_datos_scenario_B :
  consolidar_datos [Samples.recomputed; Samples.fresh] [Samples.archived]
  = [Samples.fresh; Samples.archived].
Proof. reflexivity. Qed.

(** Scenario A: with no archive, the new rows come out, newest first. *)
Example consolidar_datos_scenario_A :
  consolidar_datos [Samples.recomputed; Samples.fresh] []
  = [Samples.fresh; Samples.recomputed].
Proof. reflexivity. Qed.

(** C2. Whatever the two inputs, the consolidated frame has at most one
    row for each key (pk, sk). *)
Theorem consolidar_datos_one_row_per_key A B :
  NoDup (row_key <$> consolidar_datos B A)
  ∧ ∀ k, (length (filter (has_key k) (consolidar_datos B A)) ≤ 1)%nat.
Proof.
  split; [apply consolidar_datos_NoDup|].
  intros k. rewrite consolidar_datos_first_occurrence, length_take. lia.
Qed.

(** C3. Consolidation is idempotent, the sort being stable: a
    consolidated frame is reproduced when it is consolidated again, be
    it with no new rows, with the same new rows, or by the
    dedup-then-sort alone.  Nothing is asked of the inputs. *)
Theorem consolidar_datos_idempotent A B :
  let C := consolidar_datos B A in
  consolidar_datos [] C = C
  ∧ consolidar_datos B C = C
  ∧ sort_values (drop_duplicates C) = C.
Proof.
  intros C. split; [|split].
  - unfold consolidar_datos at 1. simpl. rewrite app_nil_r.
    apply consolidar_datos_fixed.
  - unfold consolidar_datos at 1. simpl. unfold drop_duplicates.
    rewrite drop_duplicates_seen_app.
    rewrite (drop_duplicates_seen_all_seen _ B).
    + rewrite app_nil_r. apply consolidar_datos_fixed.
    + intros r Hr. apply elem_of_union_l, elem_of_list_to_set.
      apply consolidar_datos_keys, list_elem_of_fmap_2, elem_of_app.
      by right.
  - apply consolidar_datos_fixed.
Qed.

End Consolidation.

(** ** Token heuristics *)

Section HeuristicsFacts.
Import Py Heuristics.
Local Open Scope Z_scope.

Implicit Types (d : list (string * value)) (item role parent_role : value)
  (totals : Z * Z).



Lemma sum_map_Some {A} (f : A → option Z) (g : A → Z) (xs : list A) :
  (∀ x, f x = Some (g x)) → sum_map f xs = Some (foldr Z.add 0 (g <$> xs)).
Proof.
  intros Hf. unfold sum_map.
  assert (mapM f xs = Some (g <$> xs)) as ->; [|done].
  induction xs as [|x xs IH]; [done|].
  simpl. rewrite Hf. simpl. by rewrite IH.
Qed.

Lemma calculate_tokens_str (s : string) :
  calculate_tokens (PyStr s) = Some (Z.of_nat (String.length s) / 4).
Proof. reflexivity. Qed.







Lemma process_content_item_result_arm d parent_role :
  process_content_item_result (PyDict d) parent_role
  = match arm_of (default (PyStr "text") (assoc "content_type" d)) with
    | arm_text =>
        tokens ← calculate_tokens (default (PyStr "") (assoc "body" d));
        Some None
    | arm_toolUse =>
        tool_input ← get (default (PyDict []) (assoc "body" d)) "input" (PyDict []);
        tokens ← calculate_tokens (PyStr (json_dumps tool_input));
        Some (Some (0, tokens))
    | arm_toolResult =>
        rs ← get (default (PyDict []) (assoc "body" d)) "content" (PyList [])
             ≫= iter;
        tokens ← sum_map (λ r, calculate_tokens (PyStr (str r))) rs;
        Some (Some (tokens, 0))
    | arm_other => Some None
    end.
Proof.
  unfold process_content_item_result. simpl.
  destruct (arm_of _); simpl; try done.
  by destruct (get _ "content" _).
Qed.

Lemma process_content_item_arm d parent_role :
  process_content_item (PyDict d) parent_role
  = match arm_of (default (PyStr "text") (assoc "content_type" d)) with
    | arm_text =>
        tokens ← calculate_tokens (default (PyStr "") (assoc "body" d));
        None
    | arm_toolUse =>
        tool_input ← get (default (PyDict []) (assoc "body" d)) "input" (PyDict []);
        tokens ← calculate_tokens (PyStr (json_dumps tool_input));
        Some (0, tokens)
    | arm_toolResult =>
        rs ← get (default (PyDict []) (assoc "body" d)) "content" (PyList [])
             ≫= iter;
        tokens ← sum_map (λ r, calculate_tokens (PyStr (str r))) rs;
        Some (tokens, 0)
    | arm_other => None
    end.
Proof.
  unfold process_content_item. rewrite process_content_item_result_arm.
  destruct (arm_of _); simpl; try done.
  - by destruct (calculate_tokens _).
  - destruct (get _ "input" _) as [tool_input|]; simpl; [|done].
    by destruct (calculate_tokens (PyStr (json_dumps tool_input))).
  - destruct (get _ "content" _ ≫= iter) as [rs|]; simpl; [|done].
    by destruct (sum_map _ rs).
Qed.



(** C4. An item tagged toolUse counts the length of the serialised
    [body.input], divided by 4, on the output side and nothing on the
    input side; an item tagged toolResult counts the sum over the
    elements of [body.content] of length/4 on the input side and nothing
    on the output side.  The role of the entry plays no part. *)
Theorem process_content_item_tool_sides d parent_role :
  (assoc "content_type" d = Some (PyStr "toolUse") →
   ∀ tool_input,
     get (default (PyDict []) (assoc "body" d)) "input" (PyDict [])
     = Some tool_input →
     process_content_item (PyDict d) parent_role
     = Some (0, Z.of_nat (String.length (json_dumps tool_input)) / 4))
  ∧ (assoc "content_type" d = Some (PyStr "toolResult") →
     ∀ rs,
       get (default (PyDict []) (assoc "body" d)) "content" (PyList []) ≫= iter
       = Some rs →
       process_content_item (PyDict d) parent_role
       = Some (foldr Z.add 0
                 ((λ r, Z.of_nat (String.length (str r)) / 4) <$> rs), 0)).
Proof.
  split.
  - intros Htag tool_input Hin.
    rewrite process_content_item_arm, Htag. simpl.
    by rewrite Hin.
  - intros Htag rs Hrs.
    rewrite process_content_item_arm, Htag. simpl.
    rewrite Hrs. simpl.
    by rewrite (sum_map_Some _ (λ r, Z.of_nat (String.length (str r)) / 4)).
Qed.

Lemma process_content_item_tool_sides_witness :
  process_content_item Samples.tool_call_C (PyStr "user") = Some (0, 3)
  ∧ process_content_item Samples.tool_result (PyStr "assistant") = Some (3, 0).
Proof.
  split.
  - apply (proj1 (process_content_item_tool_sides
                    [("content_type", PyStr "toolUse");
                     ("body", PyDict [("input", Samples.tool_input_C)])]
                    (PyStr "user"))
             eq_refl Samples.tool_input_C eq_refl).
  - apply (proj2 (process_content_item_tool_sides
                    [("content_type", PyStr "toolResult");
                     ("body", PyDict [("content",
                        PyList [PyStr "abcdefgh"; PyStr "12345"])])]
                    (PyStr "assistant"))
             eq_refl [PyStr "abcdefgh"; PyStr "12345"] eq_refl).
Defined.




(** C6, as the code has it.  The input object of scenario C is
    serialised with a space after the colon, to the 12 characters
    [{"a": "bcd"}]; the item counts 12 // 4 = 3 tokens, all on the
    output side, under any role. *)
Theorem scenario_C_tool_call parent_role :
  json_dumps Samples.tool_input_C
  = String "{" (String dquote ("a" +:+ String dquote (": " +:+
      String dquote ("bcd" +:+ String dquote "}"))))
  ∧ String.length (json_dumps Samples.tool_input_C) = 12%nat
  ∧ process_content_item Samples.tool_call_C parent_role = Some (0, 12 / 4)
  ∧ 12 / 4 = 3.
Proof. repeat split; reflexivity. Qed.

(** The serialised input of scenario C is not 15 characters long. *)
Lemma scenario_C_not_15_characters :
  ¬ (String.length (json_dumps Samples.tool_input_C) = 15%nat
     ∧ process_content_item Samples.tool_call_C PyNone = Some (0, 15 / 4)).
Proof. intros [Hlen _]. vm_compute in Hlen. discriminate. Qed.

(** C10, on the listed code.  An item without a [content_type] takes
    the text branch and is processed as the same item tagged text: its
    length/4 is computed there, and the call then ends without a
    [return], so that no pair of counts is handed back, whatever the
    role.  The items that reach no branch are those with an explicit
    tag other than text, toolUse and toolResult; for them nothing is
    computed and nothing handed back. *)
Theorem process_content_item_default_text d parent_role :
  assoc "content_type" d = None →
  dispatch (PyDict d) = Some arm_text
  ∧ process_content_item_result (PyDict d) parent_role
    = process_content_item_result
        (PyDict (("content_type", PyStr "text") :: d)) parent_role
  ∧ (∀ s, default (PyStr "") (assoc "body" d) = PyStr s →
       calculate_tokens (default (PyStr "") (assoc "body" d))
       = Some (Z.of_nat (String.length s) / 4)
       ∧ process_content_item_result (PyDict d) parent_role = Some None
       ∧ process_content_item (PyDict d) parent_role = None)
  ∧ (∀ d', dispatch (PyDict d') = Some arm_other ↔
       ∃ tag, assoc "content_type" d' = Some tag
              ∧ tag ≠ PyStr "text" ∧ tag ≠ PyStr "toolUse"
              ∧ tag ≠ PyStr "toolResult")
  ∧ (∀ d', dispatch (PyDict d') = Some arm_other →
       process_content_item_result (PyDict d') parent_role = Some None).
Proof.
  intros Hnone. split; [|split; [|split; [|split]]].
  - unfold dispatch. simpl. by rewrite Hnone.
  - rewrite !process_content_item_result_arm. simpl. by rewrite Hnone.
  - intros s Hs.
    rewrite process_content_item_arm, process_content_item_result_arm.
    by rewrite Hnone, Hs.
  - intros d'. unfold dispatch. simpl. split.
    + intros Harm. injection Harm as Harm.
      destruct (assoc "content_type" d') as [tag|]; [|done].
      exists tag. split; [done|]. simpl in Harm. unfold arm_of in Harm.
      repeat split; intros ->; done.
    + intros (tag & -> & Ht & Hu & Hr). simpl. f_equal.
      unfold arm_of, eq_str.
      destruct tag as [| | |s| |]; try done.
      rewrite !bool_decide_eq_false_2; [done|congruence..].
  - intros d' Harm. unfold dispatch in Harm. simpl in Harm.
    injection Harm as Harm.
    by rewrite process_content_item_result_arm, Harm.
Qed.

Lemma process_content_item_default_text_witness :
  assoc "content_type" Samples.untagged = None
  ∧ calculate_tokens (PyStr "abcdefgh") = Some 2
  ∧ process_content_item_result (PyDict Samples.untagged) (PyStr "user")
    = Some None
  ∧ process_content_item (PyDict Samples.untagged) (PyStr "user") = None.
Proof.
  split; [reflexivity|].
  destruct (process_content_item_default_text Samples.untagged (PyStr "user")
              eq_refl) as (_ & _ & Hcount & _).
  apply (Hcount "abcdefgh" eq_refl).
Defined.

End HeuristicsFacts.

(** ** Prices *)

Section PricingFacts.
Import Pricing.
Local Open Scope Z_scope.

Lemma quantize6_exact (q : Q) (m : Z) :
  (q * inject_Z 1000000 == inject_Z m)%Q → quantize6 q = m.
Proof.
  intros Hq. unfold quantize6.
  rewrite (Qfloor_comp _ (inject_Z m + (1 # 2))%Q) by (by rewrite Hq).
  unfold Qfloor, Qplus, inject_Z. simpl.
  rewrite Z.mul_1_r. symmetry.
  apply (Z.div_unique _ _ _ 1); lia.
Qed.

Lemma amount_in_micro (tokens : Z) :
  (amount tokens price_in * inject_Z 1000000 == inject_Z (3 * tokens))%Q.
Proof.
  unfold amount, price_in, Qeq, Qmult, Qdiv, Qinv, inject_Z. simpl. lia.
Qed.

Lemma amount_out_micro (tokens : Z) :
  (amount tokens price_out * inject_Z 1000000 == inject_Z (15 * tokens))%Q.
Proof.
  unfold amount, price_out, Qeq, Qmult, Qdiv, Qinv, inject_Z. simpl. lia.
Qed.

(** C7. With the unit prices 0.003 and 0.015 USD per 1K tokens, the
    total price is [input/1000 * 0.003 + output/1000 * 0.015], and its
    six fractional digits hold it exactly: it is [3 * input + 15 *
    output] millionths, the sum of the two partial prices.  For 1234
    and 5678 tokens the three amounts read 0.003702, 0.085170 and
    0.088872. *)
Theorem total_price_six_digits (input_tokens output_tokens : Z) :
  (of_micro (total_price input_tokens output_tokens)
   == inject_Z input_tokens / inject_Z 1000 * (3 # 1000)
      + inject_Z output_tokens / inject_Z 1000 * (15 # 1000))%Q
  ∧ total_price input_tokens output_tokens
    = 3 * input_tokens + 15 * output_tokens
  ∧ total_price input_tokens output_tokens
    = precio_token_input input_tokens + precio_token_output output_tokens
  ∧ format6 (precio_token_input 1234) = "0.003702"
  ∧ format6 (precio_token_output 5678) = "0.085170"
  ∧ format6 (total_price 1234 5678) = "0.088872".
Proof.
  assert (total_price input_tokens output_tokens
          = 3 * input_tokens + 15 * output_tokens) as Htotal.
  { apply quantize6_exact.
    rewrite Qmult_plus_distr_l, amount_in_micro, amount_out_micro.
    by rewrite <- inject_Z_plus. }
  split; [|split; [done|split]].
  - rewrite Htotal. unfold of_micro, Qeq, Qplus, Qmult, Qdiv, Qinv, inject_Z.
    simpl. lia.
  - rewrite Htotal. unfold precio_token_input, precio_token_output.
    rewrite (quantize6_exact _ _ (amount_in_micro _)).
    by rewrite (quantize6_exact _ _ (amount_out_micro _)).
  - repeat split; vm_compute; reflexivity.
Qed.

End PricingFacts.

(** ** The daily job *)

Section JobFacts.
Import Tokens Job.

(** C8. When the archival object is not in the bucket, the daily run
    still succeeds: the miss is logged, the historical half is read as
    empty, and the consolidated object is written from the new rows
    alone, one row per key, newest first. *)
Theorem run_daily_without_archive (historical_key output_key : string)
    (datos_nuevos : list Row) (bucket : gmap string (list Row)) :
  bucket !! historical_key = None →
  let out := consolidar_datos datos_nuevos [] in
  run_daily historical_key output_key datos_nuevos bucket
  = inr (<[output_key := out]> bucket, [HistoricalNotFound historical_key])
  ∧ out ≡ₚ drop_duplicates datos_nuevos
  ∧ NoDup (row_key <$> out)
  ∧ Sorted date_ge out
  ∧ (NoDup (row_key <$> datos_nuevos) → out ≡ₚ datos_nuevos).
Proof.
  intros Hmiss out.
  split; [|split; [|split; [|split]]].
  - unfold run_daily, leer_historico, get_object. by rewrite Hmiss.
  - apply (consolidar_datos_Permutation [] datos_nuevos).
  - apply consolidar_datos_NoDup.
  - apply sort_values_Sorted.
  - intros Hnd. unfold out. rewrite consolidar_datos_Permutation. simpl.
    unfold drop_duplicates.
    rewrite drop_duplicates_seen_id; [done|done|].
    intros r _. apply not_elem_of_empty.
Qed.

Lemma run_daily_without_archive_witness :
  let nuevos := [Samples.recomputed; Samples.fresh] in
  (∅ : gmap string (list Row)) !! "archives/tokens_analysis_old_table.csv" = None
  ∧ run_daily "archives/tokens_analysis_old_table.csv"
      "tokens_analysis_consolidated.csv" nuevos ∅
    = inr ({["tokens_analysis_consolidated.csv" := [Samples.fresh; Samples.recomputed]]},
           [HistoricalNotFound "archives/tokens_analysis_old_table.csv"]).
Proof.
  intros nuevos. split; [apply lookup_empty|].
  destruct (run_daily_without_archive
              "archives/tokens_analysis_old_table.csv"
              "tokens_analysis_consolidated.csv" nuevos ∅ (lookup_empty _))
    as [Hrun _].
  rewrite Hrun. reflexivity.
Defined.

(** A second run over an unchanged archive and the same new rows writes
    the same object again. *)
Lemma run_daily_twice (historical_key output_key : string)
    (datos_nuevos : list Row) (bucket bucket' : gmap string (list Row))
    (logs : list log_line) :
  historical_key ≠ output_key →
  run_daily historical_key output_key datos_nuevos bucket = inr (bucket', logs) →
  run_daily historical_key output_key datos_nuevos bucket' = inr (bucket', logs).
Proof.
  intros Hne. unfold run_daily, leer_historico, get_object.
  destruct (bucket !! historical_key) as [rows|] eqn:Hhist;
    intros [= <- <-]; rewrite lookup_insert_ne, Hhist by done;
    by rewrite insert_insert_eq.
Qed.

End JobFacts.

(** ** The storage-event rule *)

Section OrchestratorFacts.
Import Orchestrator.

(** The rule of [OrchestratorConstruct], for any props: on an Object
    Created event of the storage service it matches exactly when the
    bucket is the data bucket and the key starts with the clean prefix. *)
Lemma OnCsvArrived_matches (props : OrchestratorProps) (e : Event)
    (bucket key : string) :
  ev_source e = "aws.s3" → ev_detail_type e = "Object Created" →
  detail_at ["bucket"; "name"] (ev_detail e) = Some bucket →
  detail_at ["object"; "key"] (ev_detail e) = Some key →
  matches (eventPattern (OnCsvArrived props)) e
  = bool_decide (bucket = dataBucket props) && String.prefix (cleanPrefix props) key.
Proof.
  intros Hsrc Hty Hb Hk. unfold matches, field_matches. simpl.
  rewrite Hsrc, Hty, Hb, Hk.
  rewrite !bool_decide_eq_true_2 by (apply elem_of_cons; by left).
  simpl. by rewrite !orb_false_r, andb_true_r.
Qed.

(** The crawler rule listens to another source. *)
Lemma CrawlerTriggerRule_ignores_storage (props : CatalogProps) (e : Event) :
  ev_source e = "aws.s3" → fire (CrawlerTriggerRule props) e = [].
Proof.
  intros Hsrc. unfold fire, matches. simpl. rewrite Hsrc.
  rewrite bool_decide_eq_false_2; [done|].
  intros [Heq|Hin%elem_of_nil]%elem_of_cons; [discriminate|done].
Qed.

(** C9. On an Object Created event of the storage service, the rule
    matches exactly when the bucket is the configured data bucket and
    the key starts with the configured clean prefix.  Then the rules of
    the stack start the transform job, once, and nothing else; a key that
    does not start with the prefix starts nothing. *)
Theorem OnCsvArrived_fires (config : EtlConfig) (e : Event) (bucket key : string) :
  ev_source e = "aws.s3" → ev_detail_type e = "Object Created" →
  detail_at ["bucket"; "name"] (ev_detail e) = Some bucket →
  detail_at ["object"; "key"] (ev_detail e) = Some key →
  let rule := OnCsvArrived (orchestrator_props config) in
  (matches (eventPattern rule) e = true
   ↔ bucket = dataBucketName config
     ∧ String.prefix (cfg_cleanPrefix config) key = true)
  ∧ (bucket = dataBucketName config →
     String.prefix (cfg_cleanPrefix config) key = true →
     fire_all (CatEtlStack_rules config) e
     = [AwsApi "Glue" "startJobRun"
          [("JobName", jobName (cfg_environment config))]])
  ∧ (String.prefix (cfg_cleanPrefix config) key = false →
     fire_all (CatEtlStack_rules config) e = []).
Proof.
  intros Hsrc Hty Hb Hk rule.
  assert (matches (eventPattern rule) e
          = bool_decide (bucket = dataBucketName config)
            && String.prefix (cfg_cleanPrefix config) key) as Hm
    by exact (OnCsvArrived_matches (orchestrator_props config) e _ _
                Hsrc Hty Hb Hk).
  assert (fire_all (CatEtlStack_rules config) e = fire rule e) as Hall.
  { unfold fire_all, CatEtlStack_rules. simpl.
    rewrite CrawlerTriggerRule_ignores_storage by done.
    by rewrite app_nil_r. }
  split; [|split].
  - rewrite Hm, andb_true_iff, bool_decide_eq_true. done.
  - intros Hbucket Hp. rewrite Hall. unfold fire. rewrite Hm, Hp.
    by rewrite bool_decide_eq_true_2.
  - intros Hp. rewrite Hall. unfold fire. rewrite Hm, Hp.
    by rewrite andb_false_r.
Qed.

Lemma OnCsvArrived_fires_witness :
  let arrived :=
    Samples.object_created "cat-prod-normalize-reports"
      "reports/etl-process1/data.csv" in
  let curated :=
    Samples.object_created "cat-prod-normalize-reports"
      "reports/etl-process2/data.parquet" in
  fire_all (CatEtlStack_rules Samples.prod_config) arrived
  = [AwsApi "Glue" "startJobRun" [("JobName", "cat-prod-etl2-parquet")]]
  ∧ fire_all (CatEtlStack_rules Samples.prod_config) curated = [].
Proof.
  intros arrived curated. split.
  - apply (OnCsvArrived_fires Samples.prod_config arrived _ _
             eq_refl eq_refl eq_refl eq_refl); reflexivity.
  - apply (OnCsvArrived_fires Samples.prod_config curated _ _
             eq_refl eq_refl eq_refl eq_refl); reflexivity.
Defined.

End OrchestratorFacts.

(** * Further properties *)

(** ** Consolidation: what the output holds *)

Section ConsolidationContents.
Import Tokens.

Implicit Types (df A B E : list Row) (r a b : Row) (k : string * string)
  (seen : gset (string * string)).

Lemma drop_duplicates_seen_length seen df :
  (length (drop_duplicates_seen seen df) ≤ length df)%nat.
Proof.
  revert seen. induction df as [|x df IH]; intros seen; simpl; [lia|].
  destruct (decide (row_key x ∈ seen)).
  - specialize (IH seen). lia.
  - specialize (IH ({[row_key x]} ∪ seen)). simpl. lia.
Qed.

(** In a frame without repeated keys, a row is the only one of its key. *)
Lemma filter_has_key_NoDup a df :
  NoDup (row_key <$> df) → a ∈ df → filter (has_key (row_key a)) df = [a].
Proof.
  induction df as [|x df IH]; intros Hnd Ha; [by apply elem_of_nil in Ha|].
  rewrite fmap_cons in Hnd. apply NoDup_cons in Hnd as [Hx Hnd].
  assert (∀ y, y ∈ df → row_key y ≠ row_key x) as Hother.
  { intros y Hy Heq. apply Hx. rewrite <- Heq. by apply list_elem_of_fmap_2. }
  apply elem_of_cons in Ha as [->|Ha].
  - rewrite filter_cons_True by done. f_equal.
    apply elem_of_nil_inv. intros y Hy.
    apply list_elem_of_filter in Hy as [Hk Hy]. by apply (Hother y).
  - rewrite filter_cons_False; [by apply IH|].
    intros Hk. by apply (Hother a).
Qed.

Lemma list_to_set_keys_Permutation df df' :
  (∀ k, k ∈ row_key <$> df ↔ k ∈ row_key <$> df') →
  (list_to_set (row_key <$> df) : gset (string * string))
  = list_to_set (row_key <$> df').
Proof.
  intros Hk. apply set_eq. intros k. by rewrite !elem_of_list_to_set.
Qed.

(** X1. The consolidated frame is ordered newest first: no row is
    followed by a row with a later date. *)
Theorem consolidar_datos_newest_first A B :
  Sorted date_ge (consolidar_datos B A)
  ∧ ∀ i r r',
      consolidar_datos B A !! i = Some r →
      consolidar_datos B A !! S i = Some r' →
      String.leb (create_date r') (create_date r) = true.
Proof.
  assert (Sorted date_ge (consolidar_datos B A)) as Hs
    by apply sort_values_Sorted.
  split; [done|].
  induction Hs as [|x l Hs IH Hhd]; intros i r r' Hi Hi'; [done|].
  destruct i as [|i]; simpl in *.
  - injection Hi as ->. destruct Hhd as [|y l' Hy]; [done|].
    simpl in Hi'. by injection Hi' as ->.
  - by eapply IH.
Qed.

(** Membership in the consolidated frame. *)
Lemma consolidar_datos_elem A B r :
  r ∈ consolidar_datos B A
  ↔ take 1 (filter (has_key (row_key r)) (A ++ B)) = [r].
Proof.
  rewrite <- consolidar_datos_first_occurrence. split.
  - intros Hin.
    assert (r ∈ filter (has_key (row_key r)) (consolidar_datos B A)) as Hf
      by (by apply list_elem_of_filter).
    assert (length (filter (has_key (row_key r)) (consolidar_datos B A)) ≤ 1)%nat
      as Hlen by (rewrite consolidar_datos_first_occurrence, length_take; lia).
    destruct (filter (has_key (row_key r)) (consolidar_datos B A))
      as [|x [|y l]]; simpl in Hlen; [by apply elem_of_nil in Hf| |lia].
    by apply list_elem_of_singleton in Hf as ->.
  - intros Hf.
    assert (r ∈ filter (has_key (row_key r)) (consolidar_datos B A)) as Hin
      by (rewrite Hf; by left).
    by apply list_elem_of_filter in Hin as [_ ?].
Qed.

(** X2. A row is in the consolidated frame exactly when it is the first
    row of its key in the concatenation archival-then-new: no row is
    invented, no key is lost, and the frame is never longer than the two
    inputs together. *)
Theorem consolidar_datos_membership A B :
  (∀ r, r ∈ consolidar_datos B A
        ↔ take 1 (filter (has_key (row_key r)) (A ++ B)) = [r])
  ∧ (∀ r, r ∈ consolidar_datos B A → r ∈ A ∨ r ∈ B)
  ∧ (∀ k, k ∈ row_key <$> consolidar_datos B A
          ↔ k ∈ row_key <$> A ∨ k ∈ row_key <$> B)
  ∧ (length (consolidar_datos B A) ≤ length A + length B)%nat.
Proof.
  split; [intros r; apply consolidar_datos_elem|]. split; [|split].
  - intros r Hr. apply elem_of_app.
    rewrite consolidar_datos_Permutation in Hr.
    by apply drop_duplicates_seen_elem in Hr as [? _].
  - intros k. by rewrite consolidar_datos_keys, fmap_app, elem_of_app.
  - rewrite consolidar_datos_Permutation, <- length_app.
    apply drop_duplicates_seen_length.
Qed.

(** X3. When the archive has no repeated key, every archival row is in
    the consolidated frame, whatever the new rows are. *)
Theorem consolidar_datos_keeps_archive A B a :
  NoDup (row_key <$> A) → a ∈ A → a ∈ consolidar_datos B A.
Proof.
  intros Hnd Ha.
  apply consolidar_datos_elem.
  by rewrite filter_app, (filter_has_key_NoDup a A).
Qed.

Lemma consolidar_datos_keeps_archive_witness :
  NoDup (row_key <$> [Samples.archived])
  ∧ Samples.archived ∈ [Samples.archived]
  ∧ Samples.archived
    ∈ consolidar_datos [Samples.recomputed; Samples.fresh] [Samples.archived].
Proof.
  assert (NoDup (row_key <$> [Samples.archived])) as Hnd
    by (repeat constructor; apply not_elem_of_nil).
  assert (Samples.archived ∈ [Samples.archived]) as Hin
    by (apply elem_of_cons; by left).
  split; [done|]. split; [done|].
  exact (consolidar_datos_keeps_archive _ [Samples.recomputed; Samples.fresh]
           _ Hnd Hin).
Defined.

(** X4. When no key occurs twice in the two inputs together, nothing is
    dropped: the consolidated frame is a rearrangement of the archival
    rows and the new rows. *)
Theorem consolidar_datos_disjoint_keys A B :
  NoDup (row_key <$> (A ++ B)) →
  consolidar_datos B A ≡ₚ A ++ B
  ∧ length (consolidar_datos B A) = (length A + length B)%nat.
Proof.
  intros Hnd.
  assert (consolidar_datos B A ≡ₚ A ++ B) as Hp.
  { rewrite consolidar_datos_Permutation. unfold drop_duplicates.
    rewrite drop_duplicates_seen_id; [done|done|].
    intros r _. apply not_elem_of_empty. }
  split; [done|]. by rewrite Hp, length_app.
Qed.

Lemma consolidar_datos_disjoint_keys_witness :
  NoDup (row_key <$> ([Samples.archived] ++ [Samples.fresh]))
  ∧ consolidar_datos [Samples.fresh] [Samples.archived]
    ≡ₚ [Samples.archived] ++ [Samples.fresh].
Proof.
  assert (NoDup (row_key <$> ([Samples.archived] ++ [Samples.fresh]))) as Hnd.
  { apply NoDup_cons. split.
    - intros [Heq|Hin%elem_of_nil]%elem_of_cons; [discriminate|done].
    - apply NoDup_singleton. }
  split; [done|].
  exact (proj1 (consolidar_datos_disjoint_keys _ _ Hnd)).
Defined.

(** X5. Consolidating yesterday's result with further rows gives the same
    rows as consolidating the archive with all the new rows at once; and
    a row that was kept stays kept when more new rows arrive. *)
Theorem consolidar_datos_incremental A B E :
  consolidar_datos E (consolidar_datos B A) ≡ₚ consolidar_datos (B ++ E) A
  ∧ ∀ r, r ∈ consolidar_datos B A → r ∈ consolidar_datos (B ++ E) A.
Proof.
  assert (consolidar_datos (B ++ E) A
          ≡ₚ consolidar_datos B A
             ++ drop_duplicates_seen
                  (list_to_set (row_key <$> consolidar_datos B A) ∪ ∅) E) as Hall.
  { rewrite (consolidar_datos_Permutation A (B ++ E)).
    rewrite app_assoc. unfold drop_duplicates.
    rewrite drop_duplicates_seen_app.
    rewrite (list_to_set_keys_Permutation (A ++ B) (consolidar_datos B A))
      by (intros k; by rewrite consolidar_datos_keys).
    by rewrite <- (consolidar_datos_Permutation A B). }
  split.
  - rewrite Hall, (consolidar_datos_Permutation (consolidar_datos B A) E).
    unfold drop_duplicates at 1. rewrite drop_duplicates_seen_app.
    rewrite drop_duplicates_seen_id;
      [done | apply consolidar_datos_NoDup | intros r _; apply not_elem_of_empty].
  - intros r Hr. rewrite Hall. apply elem_of_app. by left.
Qed.

End ConsolidationContents.

(** ** Scans: how the totals add up *)

Section ScanTotals.
Import Py Heuristics Totals.
Local Open Scope Z_scope.

Implicit Types (t c : Z * Z) (d : list (string * value)).

Lemma add_assoc t c c' : add (add t c) c' = add t (add c c').
Proof. destruct t, c, c'. unfold add. simpl. f_equal; lia. Qed.

Lemma add_comm t c : add t c = add c t.
Proof. destruct t, c. unfold add. simpl. f_equal; lia. Qed.

Lemma add_zero_l t : add (0, 0) t = t.
Proof. by destruct t. Qed.

Section Additive.
Context {A : Type} (step : Z * Z → A → option (Z * Z)).
Hypothesis step_add : ∀ t x, step t x = add t <$> contribution step x.

Lemma for_each_add t xs :
  for_each xs step t = add t <$> for_each xs step (0, 0).
Proof.
  revert t. induction xs as [|x xs IH]; intros t; simpl.
  - destruct t as [i o]. unfold add. simpl. f_equal. f_equal; lia.
  - rewrite (step_add t x), (step_add (0, 0) x).
    destruct (contribution step x) as [c|]; simpl; [|done].
    rewrite add_zero_l, (IH (add t c)), (IH c).
    destruct (for_each xs step (0, 0)) as [c'|]; simpl; [|done].
    by rewrite add_assoc.
Qed.

Lemma for_each_app_add xs ys t t' :
  for_each xs step (0, 0) = Some t → for_each ys step (0, 0) = Some t' →
  for_each (xs ++ ys) step (0, 0) = Some (add t t').
Proof.
  assert (∀ s, for_each (xs ++ ys) step s
               = for_each xs step s ≫= for_each ys step) as Happ.
  { induction xs as [|x xs IH]; intros s; simpl; [done|].
    destruct (step s x); simpl; [apply IH|done]. }
  intros Hx Hy. rewrite Happ, Hx. simpl. by rewrite for_each_add, Hy.
Qed.

Lemma for_each_Permutation_add xs ys t :
  xs ≡ₚ ys → for_each xs step t = for_each ys step t.
Proof.
  intros Hp. revert t.
  induction Hp as [|x xs ys Hp IH|x y xs|xs ys zs Hp1 IH1 Hp2 IH2]; intros t.
  - done.
  - simpl. destruct (step t x); simpl; [apply IH|done].
  - simpl. rewrite (step_add t y), (step_add t x).
    destruct (contribution step y) as [cy|] eqn:Hy,
             (contribution step x) as [cx|] eqn:Hx; simpl;
      rewrite ?(step_add (add t cy) x), ?(step_add (add t cx) y), ?Hx, ?Hy;
      simpl; try done.
    by rewrite !add_assoc, (add_comm cy cx).
  - by rewrite IH1, IH2.
Qed.

Lemma for_each_raises xs x t :
  x ∈ xs → contribution step x = None → for_each xs step t = None.
Proof.
  intros Hx Hnone. revert t. induction xs as [|y xs IH]; intros t.
  - by apply elem_of_nil in Hx.
  - simpl. apply elem_of_cons in Hx as [<-|Hx].
    + by rewrite step_add, Hnone.
    + destruct (step t y); simpl; [by apply IH|done].
Qed.

End Additive.

Lemma item_step_OLD_add (role : string) t item :
  item_step_OLD role t item = add t <$> contribution (item_step_OLD role) item.
Proof.
  unfold contribution, item_step_OLD. destruct t as [i o].
  destruct (isinstance_dict item && contains item "body"); simpl.
  - destruct (get item "body" (PyStr "")) as [b|]; simpl; [|done].
    destruct (len b) as [n|]; simpl; [|done].
    repeat case_match; simpl; unfold add; simpl; f_equal; f_equal; lia.
  - unfold add. simpl. f_equal. f_equal; lia.
Qed.

Lemma entry_step_OLD_add t (entry : string * value) :
  entry_step_OLD t entry = add t <$> contribution entry_step_OLD entry.
Proof.
  unfold contribution, entry_step_OLD. destruct entry as [key v].
  destruct (get v "role" (PyStr "")) as [r|]; simpl; [|done].
  destruct (lower r) as [role|]; simpl; [|done].
  destruct (get v "content" (PyList [])) as [content|]; simpl; [|done].
  destruct content; simpl;
    try (destruct t; unfold add; simpl; f_equal; f_equal; lia).
  apply for_each_add, item_step_OLD_add.
Qed.

Lemma node_step_v2_add (walker : value → value → option (Z * Z)) t
    (node : string * value) :
  node_step_v2 walker t node = add t <$> contribution (node_step_v2 walker) node.
Proof.
  unfold contribution, node_step_v2. destruct t as [i o], node as [node_id v].
  destruct (get v "role" PyNone) as [role|]; simpl; [|done].
  destruct (get v "content" (PyList [])) as [content|]; simpl; [|done].
  by destruct (walker content role) as [[a b]|].
Qed.

(** X6. The legacy scan adds up entry by entry: the totals of a message
    map made of two groups of entries are the sums of the totals of the
    groups. *)
Theorem extract_tokens_OLD_additive (entries entries' : list (string * value)) t t' :
  extract_tokens_from_messagemap_OLD (PyDict entries) = Some t →
  extract_tokens_from_messagemap_OLD (PyDict entries') = Some t' →
  extract_tokens_from_messagemap_OLD (PyDict (entries ++ entries'))
  = Some (t.1 + t'.1, t.2 + t'.2).
Proof.
  unfold extract_tokens_from_messagemap_OLD. simpl. intros H1 H2.
  by rewrite (for_each_app_add _ entry_step_OLD_add _ _ _ _ H1 H2).
Qed.

Lemma extract_tokens_OLD_additive_witness :
  let asked := [("n1", Samples.node (Some (PyStr "user")) [PyDict Samples.untagged])] in
  let answered :=
    [("n2", Samples.node (Some (PyStr "Assistant")) [PyDict Samples.image_item])] in
  extract_tokens_from_messagemap_OLD (PyDict (asked ++ answered)) = Some (2, 2).
Proof.
  intros asked answered.
  exact (extract_tokens_OLD_additive asked answered (2, 0) (0, 2) eq_refl eq_refl).
Defined.

(** X7. The legacy scan does not depend on the order of the entries of
    the message map: rearranged entries give the same totals, or the same
    failure. *)
Theorem extract_tokens_OLD_order (entries entries' : list (string * value)) :
  entries ≡ₚ entries' →
  extract_tokens_from_messagemap_OLD (PyDict entries)
  = extract_tokens_from_messagemap_OLD (PyDict entries').
Proof.
  intros Hp. unfold extract_tokens_from_messagemap_OLD. simpl.
  by apply for_each_Permutation_add; [apply entry_step_OLD_add|].
Qed.

Lemma extract_tokens_OLD_order_witness :
  let e1 := ("n1", Samples.node (Some (PyStr "user")) [PyDict Samples.untagged]) in
  let e2 := ("n2", Samples.node (Some (PyStr "bot")) [PyDict Samples.image_item]) in
  [e1; e2] ≡ₚ [e2; e1]
  ∧ extract_tokens_from_messagemap_OLD (PyDict [e1; e2])
    = extract_tokens_from_messagemap_OLD (PyDict [e2; e1]).
Proof.
  intros e1 e2.
  assert ([e1; e2] ≡ₚ [e2; e1]) as Hp by apply perm_swap.
  split; [done|]. exact (extract_tokens_OLD_order _ _ Hp).
Defined.

(** X8. One entry that is not a map, or whose role is present but is not
    a string, makes the whole legacy scan raise, wherever it stands in
    the message map and whatever the other entries hold. *)
Theorem extract_tokens_OLD_raises (entries : list (string * value))
    (key : string) (v : value) :
  (key, v) ∈ entries →
  isinstance_dict v = false
  ∨ (∃ d r, v = PyDict d ∧ assoc "role" d = Some r ∧ lower r = None) →
  extract_tokens_from_messagemap_OLD (PyDict entries) = None.
Proof.
  intros Hin Hbad. unfold extract_tokens_from_messagemap_OLD. simpl.
  apply (for_each_raises _ entry_step_OLD_add _ _ _ Hin).
  unfold contribution, entry_step_OLD.
  destruct Hbad as [Hnd|(d & r & -> & Hr & Hl)].
  - by destruct v.
  - simpl. rewrite Hr. simpl. by rewrite Hl.
Qed.

Lemma extract_tokens_OLD_raises_witness :
  extract_tokens_from_messagemap_OLD
    (PyDict [("n1", Samples.node (Some (PyStr "user")) [PyDict Samples.untagged]);
             ("n2", PyStr "not a map")])
  = None.
Proof.
  apply (extract_tokens_OLD_raises _ "n2" (PyStr "not a map")).
  - apply elem_of_cons. right. apply elem_of_cons. by left.
  - by left.
Defined.

End ScanTotals.

(** ** Scans: bounds and failures *)

Section ScanBounds.
Import Py Heuristics Totals.
Local Open Scope Z_scope.

Implicit Types (t : Z * Z) (d : list (string * value)).

Lemma for_each_invariant {A S} (P : S → Prop) (body : S → A → option S)
    (xs : list A) (s s' : S) :
  (∀ s0 x s1, P s0 → body s0 x = Some s1 → P s1) →
  P s → for_each xs body s = Some s' → P s'.
Proof.
  intros Hstep. revert s. induction xs as [|x xs IH]; intros s Hs; simpl.
  - by intros [= <-].
  - destruct (body s x) as [s1|] eqn:Hb; simpl; [|done].
    apply IH. by eapply Hstep.
Qed.

Lemma len_nonneg (v : value) (n : Z) : len v = Some n → 0 ≤ n.
Proof. destruct v; simpl; intros [= <-]; lia. Qed.

Lemma item_step_OLD_nonneg (role : string) t item t' :
  nonneg t → item_step_OLD role t item = Some t' → nonneg t'.
Proof.
  unfold nonneg, item_step_OLD. destruct t as [i o]. simpl. intros [Hi Ho].
  destruct (isinstance_dict item && contains item "body"); simpl;
    [|by intros [= <-]].
  destruct (get item "body" (PyStr "")) as [b|]; simpl; [|done].
  destruct (len b) as [n|] eqn:Hn; simpl; [|done].
  apply len_nonneg in Hn.
  assert (0 ≤ n / 4) by (apply Z.div_pos; lia).
  repeat case_match; intros [= <-]; simpl; lia.
Qed.

Lemma entry_step_OLD_nonneg t (entry : string * value) t' :
  nonneg t → entry_step_OLD t entry = Some t' → nonneg t'.
Proof.
  unfold entry_step_OLD. destruct entry as [key v]. intros Ht.
  destruct (get v "role" (PyStr "")) as [r|]; simpl; [|done].
  destruct (lower r) as [role|]; simpl; [|done].
  destruct (get v "content" (PyList [])) as [content|]; simpl; [|done].
  destruct content; try by intros [= <-].
  apply (for_each_invariant nonneg); [|done].
  intros s0 x s1. apply item_step_OLD_nonneg.
Qed.

(** X9. The totals of the legacy scan are never negative. *)
Theorem extract_tokens_OLD_nonneg (message_map : value) (input_tokens output_tokens : Z) :
  extract_tokens_from_messagemap_OLD message_map
  = Some (input_tokens, output_tokens) →
  0 ≤ input_tokens ∧ 0 ≤ output_tokens.
Proof.
  unfold extract_tokens_from_messagemap_OLD.
  destruct (items message_map) as [entries|]; simpl; [|done].
  intros Hscan.
  apply (for_each_invariant nonneg _ _ _ _ entry_step_OLD_nonneg) in Hscan;
    [done|]. unfold nonneg. simpl. lia.
Qed.

Lemma extract_tokens_OLD_nonneg_witness :
  let message_map :=
    PyDict [("n1", Samples.node (Some (PyStr "user")) [PyDict Samples.untagged])] in
  extract_tokens_from_messagemap_OLD message_map = Some (2, 0) ∧ 0 ≤ 2 ∧ 0 ≤ 0.
Proof.
  intros message_map. split; [reflexivity|].
  exact (extract_tokens_OLD_nonneg message_map 2 0 eq_refl).
Defined.




Lemma floor_sum_le (ns : list Z) :
  foldr Z.add 0 ((λ n, n / 4) <$> ns) ≤ foldr Z.add 0 ns / 4.
Proof.
  induction ns as [|n ns IH]; [done|].
  rewrite fmap_cons. cbn [foldr].
  apply Z.div_le_lower_bound; [lia|].
  pose proof (Z.mul_div_le n 4). pose proof (Z.mul_div_le (foldr Z.add 0 ns) 4).
  lia.
Qed.

(** X11. A tool result is counted piece by piece, each piece rounded
    down, so its count is never negative and never more than the length
    of all the pieces together divided by 4; it goes to the input side
    only. *)
Theorem process_content_item_toolResult_bound d (parent_role : value)
    (rs : list value) :
  assoc "content_type" d = Some (PyStr "toolResult") →
  get (default (PyDict []) (assoc "body" d)) "content" (PyList []) ≫= iter
  = Some rs →
  ∃ tokens,
    process_content_item (PyDict d) parent_role = Some (tokens, 0)
    ∧ 0 ≤ tokens
    ∧ tokens ≤ foldr Z.add 0 ((λ r, Z.of_nat (String.length (str r))) <$> rs) / 4.
Proof.
  intros Htag Hrs.
  exists (foldr Z.add 0 ((λ r, Z.of_nat (String.length (str r)) / 4) <$> rs)).
  split; [|split].
  - rewrite process_content_item_arm, Htag. simpl. rewrite Hrs. simpl.
    by rewrite (sum_map_Some _ (λ r, Z.of_nat (String.length (str r)) / 4)).
  - clear. induction rs as [|r rs IH]; [done|].
    rewrite fmap_cons. cbn [foldr].
    assert (0 ≤ Z.of_nat (String.length (str r)) / 4)
      by (apply Z.div_pos; lia).
    lia.
  - pose proof (floor_sum_le ((λ r, Z.of_nat (String.length (str r))) <$> rs)) as Hle.
    by rewrite <- list_fmap_compose in Hle.
Qed.

Lemma process_content_item_toolResult_bound_witness :
  ∃ tokens,
    process_content_item Samples.tool_result (PyStr "user") = Some (tokens, 0)
    ∧ 0 ≤ tokens ∧ tokens ≤ 13 / 4.
Proof.
  exact (process_content_item_toolResult_bound
           [("content_type", PyStr "toolResult");
            ("body", PyDict [("content", PyList [PyStr "abcdefgh"; PyStr "12345"])])]
           (PyStr "user") [PyStr "abcdefgh"; PyStr "12345"] eq_refl eq_refl).
Defined.

Lemma chars_count_nothing (s : string) :
  foldr Z.add 0
    ((λ r, Z.of_nat (String.length (str r)) / 4)
       <$> map (λ c, PyStr (chr c)) (list_ascii_of_string s)) = 0.
Proof.
  induction (list_ascii_of_string s) as [|c l IH]; [done|].
  cbn [map]. rewrite fmap_cons. cbn [foldr]. by rewrite IH.
Qed.

(** X12. A tool result whose content is one string, not a list of
    strings, counts nothing: the loop runs over its characters, and one
    character is less than a token. *)
Theorem process_content_item_toolResult_string d (parent_role : value)
    (s : string) :
  assoc "content_type" d = Some (PyStr "toolResult") →
  get (default (PyDict []) (assoc "body" d)) "content" (PyList [])
  = Some (PyStr s) →
  process_content_item (PyDict d) parent_role = Some (0, 0).
Proof.
  intros Htag Hs.
  rewrite process_content_item_arm, Htag. simpl. rewrite Hs. simpl.
  rewrite (sum_map_Some _ (λ r, Z.of_nat (String.length (str r)) / 4)) by done.
  simpl. by rewrite chars_count_nothing.
Qed.

Lemma process_content_item_toolResult_string_witness :
  process_content_item
    (PyDict [("content_type", PyStr "toolResult");
             ("body", PyDict [("content", PyStr "a long answer of the tool")])])
    (PyStr "user")
  = Some (0, 0).
Proof.
  exact (process_content_item_toolResult_string
           [("content_type", PyStr "toolResult");
            ("body", PyDict [("content", PyStr "a long answer of the tool")])]
           (PyStr "user") "a long answer of the tool" eq_refl eq_refl).
Defined.

(** X13. A tool call raises when its body is present and is not a map.
    A tool result raises exactly when its body is present and is not a
    map, or the content of the body is present and cannot be iterated
    (None, a boolean, a number). *)
Theorem process_content_item_tool_raises d (parent_role : value) :
  (assoc "content_type" d = Some (PyStr "toolUse") →
   (∃ b, assoc "body" d = Some b ∧ isinstance_dict b = false) →
   process_content_item (PyDict d) parent_role = None)
  ∧ (assoc "content_type" d = Some (PyStr "toolResult") →
     (process_content_item (PyDict d) parent_role = None
      ↔ (∃ b, assoc "body" d = Some b ∧ isinstance_dict b = false)
        ∨ (∃ bd c, assoc "body" d = Some (PyDict bd)
                   ∧ assoc "content" bd = Some c ∧ iter c = None))).
Proof.
  split; intros Htag; rewrite process_content_item_arm, Htag; simpl.
  - intros (b & -> & Hb). simpl. by destruct b.
  - destruct (assoc "body" d) as [b|]; simpl.
    + destruct b as [| | | | |bd]; simpl;
        try (split; [by eauto|done]).
      destruct (assoc "content" bd) as [c|] eqn:Hc; simpl.
      * destruct (iter c) as [rs|] eqn:Hi; simpl.
        -- rewrite (sum_map_Some _ (λ r, Z.of_nat (String.length (str r)) / 4))
             by done.
           simpl. split; [done|].
           intros [(b & [= <-] & Hb)|(bd' & c' & [= <-] & Hc' & Hi')]; [done|].
           congruence.
        -- split; [|done]. intros _. right. by exists bd, c.
      * split; [done|].
        intros [(b & [= <-] & Hb)|(bd' & c' & [= <-] & Hc' & Hi')]; [done|].
        congruence.
    + split; [done|].
      intros [(b & ? & _)|(bd' & c' & ? & _)]; done.
Qed.

Lemma process_content_item_tool_raises_witness :
  process_content_item
    (PyDict [("content_type", PyStr "toolUse"); ("body", PyStr "search")])
    (PyStr "assistant")
  = None.
Proof.
  apply (proj1 (process_content_item_tool_raises
                  [("content_type", PyStr "toolUse"); ("body", PyStr "search")]
                  (PyStr "assistant")) eq_refl).
  by exists (PyStr "search").
Defined.

(** X14. The enhanced scan, over any walker of node contents: the
    totals of two groups of nodes add up, the order of the nodes does not
    matter, a node that is not a map makes the scan raise, and so does a
    node on which the walker raises; the walker is given the list [[]]
    for a missing content and [None] for a missing role. *)
Theorem extract_tokens_v2_totals (walker : value → value → option (Z * Z)) :
  (∀ nodes nodes' t t',
     extract_tokens_from_messagemap_v2 walker (PyDict nodes) = Some t →
     extract_tokens_from_messagemap_v2 walker (PyDict nodes') = Some t' →
     extract_tokens_from_messagemap_v2 walker (PyDict (nodes ++ nodes'))
     = Some (t.1 + t'.1, t.2 + t'.2))
  ∧ (∀ nodes nodes' : list (string * value),
       nodes ≡ₚ nodes' →
       extract_tokens_from_messagemap_v2 walker (PyDict nodes)
       = extract_tokens_from_messagemap_v2 walker (PyDict nodes'))
  ∧ (∀ (nodes : list (string * value)) (node_id : string) v,
       (node_id, v) ∈ nodes → isinstance_dict v = false →
       extract_tokens_from_messagemap_v2 walker (PyDict nodes) = None)
  ∧ (∀ (nodes : list (string * value)) (node_id : string) d,
       (node_id, PyDict d) ∈ nodes →
       walker (default (PyList []) (assoc "content" d))
              (default PyNone (assoc "role" d)) = None →
       extract_tokens_from_messagemap_v2 walker (PyDict nodes) = None).
Proof.
  unfold extract_tokens_from_messagemap_v2. simpl.
  split; [|split; [|split]].
  - intros nodes nodes' t t' H1 H2.
    by rewrite (for_each_app_add _ (node_step_v2_add walker) _ _ _ _ H1 H2).
  - intros nodes nodes' Hp.
    by apply for_each_Permutation_add; [apply node_step_v2_add|].
  - intros nodes node_id v Hin Hv.
    apply (for_each_raises _ (node_step_v2_add walker) _ _ _ Hin).
    unfold contribution, node_step_v2. by destruct v.
  - intros nodes node_id d Hin Hw.
    apply (for_each_raises _ (node_step_v2_add walker) _ _ _ Hin).
    unfold contribution, node_step_v2. simpl. by rewrite Hw.
Qed.

Lemma extract_tokens_v2_totals_witness :
  let walker content role := process_content_item content role in
  extract_tokens_from_messagemap_v2 walker
    (PyDict ([("n1", PyDict [("role", PyStr "assistant");
                             ("content", Samples.tool_call_C)])]
             ++ [("n2", PyDict [("content", Samples.tool_result)])]))
  = Some (3, 3)
  ∧ extract_tokens_from_messagemap_v2 walker
      (PyDict [("n1", PyDict []); ("n2", PyNone)])
    = None.
Proof.
  intros walker.
  destruct (extract_tokens_v2_totals walker) as (Hadd & _ & Hraise & _).
  split.
  - exact (Hadd [("n1", PyDict [("role", PyStr "assistant");
                                ("content", Samples.tool_call_C)])]
             [("n2", PyDict [("content", Samples.tool_result)])]
             (0, 3) (3, 0) eq_refl eq_refl).
  - apply (Hraise _ "n2" PyNone); [|done].
    apply elem_of_cons. right. apply elem_of_cons. by left.
Defined.

End ScanBounds.

(** ** The ETL stack: validation, selection and the chain of rules *)

Section EtlStackFacts.
Import Orchestrator EtlStack.

Lemma prefix_app_l (p c s : string) :
  String.prefix p c = true → String.prefix p (c +:+ s) = true.
Proof.
  revert c. induction p as [|a p IH]; intros c; [by destruct (c +:+ s)|].
  destruct c as [|b c]; simpl; [done|].
  destruct (ascii_dec a b); [apply IH|done].
Qed.

Lemma prefix_app_inv (p c s : string) :
  String.prefix p (c +:+ s) = true →
  String.prefix p c = true ∨ String.prefix c p = true.
Proof.
  revert c. induction p as [|a p IH]; intros c.
  - left. by destruct c.
  - destruct c as [|b c]; simpl; [by right|].
    destruct (ascii_dec a b) as [->|Hne].
    + intros Hp. destruct (ascii_dec b b) as [_|Hbb]; [by apply IH|by destruct Hbb].
    + done.
Qed.

(** The storage rule, for one event of the storage service. *)
Lemma OnCsvArrived_fire (props : OrchestratorProps) (e : Event) (bucket key : string) :
  ev_source e = "aws.s3" → ev_detail_type e = "Object Created" →
  detail_at ["bucket"; "name"] (ev_detail e) = Some bucket →
  detail_at ["object"; "key"] (ev_detail e) = Some key →
  fire (OnCsvArrived props) e
  = if bool_decide (bucket = dataBucket props)
       && String.prefix (cleanPrefix props) key
    then [AwsApi "Glue" "startJobRun" [("JobName", glueJobName props)]]
    else [].
Proof.
  intros Hsrc Hty Hb Hk. unfold fire.
  by rewrite (OnCsvArrived_matches props e bucket key Hsrc Hty Hb Hk).
Qed.

Lemma OnCsvArrived_ignores_jobs (props : OrchestratorProps) (e : Event) :
  ev_source e = "aws.glue" → fire (OnCsvArrived props) e = [].
Proof.
  intros Hsrc. unfold fire, matches. simpl. rewrite Hsrc.
  rewrite bool_decide_eq_false_2; [done|].
  intros [Heq|Hin%elem_of_nil]%elem_of_cons; [discriminate|done].
Qed.

(** The crawler rule, for one event of the job service. *)
Lemma CrawlerTriggerRule_fire (props : CatalogProps) (e : Event) (job state : string) :
  ev_source e = "aws.glue" → ev_detail_type e = "Glue Job State Change" →
  detail_at ["jobName"] (ev_detail e) = Some job →
  detail_at ["state"] (ev_detail e) = Some state →
  fire (CrawlerTriggerRule props) e
  = if bool_decide (job = cat_glueJobName props)
       && bool_decide (state = "SUCCEEDED")
    then [AwsApi "Glue" "startCrawler" [("Name", dynamicCrawlerName props)]]
    else [].
Proof.
  intros Hsrc Hty Hj Hs. unfold fire, matches, field_matches. simpl.
  rewrite Hsrc, Hty, Hj, Hs.
  rewrite !bool_decide_eq_true_2 by (apply elem_of_cons; by left).
  simpl. by rewrite !orb_false_r, andb_true_r.
Qed.

Lemma fire_all_job_event (config : EtlConfig) (e : Event) :
  ev_source e = "aws.glue" →
  fire_all (CatEtlStack_rules config) e
  = fire (CrawlerTriggerRule (catalog_props config)) e.
Proof.
  intros Hsrc. unfold fire_all, CatEtlStack_rules. cbn [flat_map].
  by rewrite (OnCsvArrived_ignores_jobs _ _ Hsrc), !app_nil_r.
Qed.

Lemma fire_all_storage_event (config : EtlConfig) (e : Event) :
  ev_source e = "aws.s3" →
  fire_all (CatEtlStack_rules config) e
  = fire (OnCsvArrived (orchestrator_props config)) e.
Proof.
  intros Hsrc. unfold fire_all, CatEtlStack_rules. cbn [flat_map].
  by rewrite (CrawlerTriggerRule_ignores_storage _ _ Hsrc), app_nil_r.
Qed.

(** X15. The crawler is started on the success of the transform job and
    on nothing else: a state change of the stack's job with state
    SUCCEEDED starts the crawler of the environment, once; any other
    state, or the same state of another job, starts nothing. *)
Theorem CrawlerTriggerRule_success_only (config : EtlConfig) (e : Event)
    (job state : string) :
  ev_source e = "aws.glue" → ev_detail_type e = "Glue Job State Change" →
  detail_at ["jobName"] (ev_detail e) = Some job →
  detail_at ["state"] (ev_detail e) = Some state →
  (job = jobName (cfg_environment config) → state = "SUCCEEDED" →
   fire_all (CatEtlStack_rules config) e
   = [AwsApi "Glue" "startCrawler"
        [("Name", "cat-" +:+ cfg_environment config +:+ "-curated-crawler")]])
  ∧ (job ≠ jobName (cfg_environment config) ∨ state ≠ "SUCCEEDED" →
     fire_all (CatEtlStack_rules config) e = []).
Proof.
  intros Hsrc Hty Hj Hs.
  rewrite (fire_all_job_event _ _ Hsrc).
  rewrite (CrawlerTriggerRule_fire _ _ _ _ Hsrc Hty Hj Hs). simpl.
  split.
  - intros -> ->. by rewrite !bool_decide_eq_true_2.
  - intros [Hjob|Hstate].
    + by rewrite (bool_decide_eq_false_2 _ Hjob).
    + by rewrite (bool_decide_eq_false_2 _ Hstate), andb_false_r.
Qed.

Lemma CrawlerTriggerRule_success_only_witness :
  fire_all (CatEtlStack_rules prodEtlConfig)
    (job_state_change "cat-prod-etl2-parquet" "SUCCEEDED")
  = [AwsApi "Glue" "startCrawler" [("Name", "cat-prod-curated-crawler")]]
  ∧ fire_all (CatEtlStack_rules prodEtlConfig)
      (job_state_change "cat-prod-etl2-parquet" "FAILED")
    = [].
Proof.
  split.
  - exact (proj1 (CrawlerTriggerRule_success_only prodEtlConfig
                    (job_state_change "cat-prod-etl2-parquet" "SUCCEEDED")
                    _ _ eq_refl eq_refl eq_refl eq_refl) eq_refl eq_refl).
  - apply (proj2 (CrawlerTriggerRule_success_only prodEtlConfig
                    (job_state_change "cat-prod-etl2-parquet" "FAILED")
                    _ _ eq_refl eq_refl eq_refl eq_refl)).
    by right.
Defined.

(** X16. The two rules of the stack are chained through the job name:
    whatever job an arriving object starts, the success of that very job
    starts the crawler. *)
Theorem storage_rule_feeds_crawler_rule (config : EtlConfig) (arrived : Event)
    (bucket key : string) (target : Target) (job : string) :
  ev_source arrived = "aws.s3" → ev_detail_type arrived = "Object Created" →
  detail_at ["bucket"; "name"] (ev_detail arrived) = Some bucket →
  detail_at ["object"; "key"] (ev_detail arrived) = Some key →
  fire_all (CatEtlStack_rules config) arrived = [target] →
  Py.assoc "JobName" (parameters target) = Some job →
  action target = "startJobRun"
  ∧ fire_all (CatEtlStack_rules config) (job_state_change job "SUCCEEDED")
    = [AwsApi "Glue" "startCrawler"
         [("Name", "cat-" +:+ cfg_environment config +:+ "-curated-crawler")]].
Proof.
  intros Hsrc Hty Hb Hk Hfire Hjob.
  rewrite (fire_all_storage_event _ _ Hsrc) in Hfire.
  rewrite (OnCsvArrived_fire _ _ _ _ Hsrc Hty Hb Hk) in Hfire.
  simpl in Hfire.
  destruct (bool_decide (bucket = dataBucketName config)
            && String.prefix (cfg_cleanPrefix config) key); [|done].
  injection Hfire as <-. simpl in Hjob. injection Hjob as <-.
  split; [done|].
  rewrite fire_all_job_event by reflexivity.
  erewrite CrawlerTriggerRule_fire; [|reflexivity..].
  simpl. by rewrite !bool_decide_eq_true_2.
Qed.

Lemma storage_rule_feeds_crawler_rule_witness :
  fire_all (CatEtlStack_rules prodEtlConfig)
    (job_state_change "cat-prod-etl2-parquet" "SUCCEEDED")
  = [AwsApi "Glue" "startCrawler" [("Name", "cat-prod-curated-crawler")]].
Proof.
  exact (proj2 (storage_rule_feeds_crawler_rule prodEtlConfig
                  (Samples.object_created "cat-prod-normalize-reports"
                     "reports/etl-process1/data.csv")
                  _ _ (AwsApi "Glue" "startJobRun"
                         [("JobName", "cat-prod-etl2-parquet")])
                  "cat-prod-etl2-parquet"
                  eq_refl eq_refl eq_refl eq_refl eq_refl eq_refl)).
Defined.

(** X17. Objects written under the output prefix of the transform job,
    its deployed script among them, do not start the job again when
    neither of the two prefixes begins with the other; when the output
    prefix begins with the clean prefix, every such object starts it. *)
Theorem OnCsvArrived_feedback (props : OrchestratorProps) (outputPrefix suffix : string)
    (e : Event) :
  ev_source e = "aws.s3" → ev_detail_type e = "Object Created" →
  detail_at ["bucket"; "name"] (ev_detail e) = Some (dataBucket props) →
  detail_at ["object"; "key"] (ev_detail e) = Some (outputPrefix +:+ suffix) →
  (String.prefix (cleanPrefix props) outputPrefix = false →
   String.prefix outputPrefix (cleanPrefix props) = false →
   fire (OnCsvArrived props) e = [])
  ∧ (String.prefix (cleanPrefix props) outputPrefix = true →
     fire (OnCsvArrived props) e
     = [AwsApi "Glue" "startJobRun" [("JobName", glueJobName props)]]).
Proof.
  intros Hsrc Hty Hb Hk.
  rewrite (OnCsvArrived_fire _ _ _ _ Hsrc Hty Hb Hk).
  rewrite bool_decide_eq_true_2 by done. simpl.
  split.
  - intros Hco Hoc.
    destruct (String.prefix (cleanPrefix props) (outputPrefix +:+ suffix)) eqn:Hp;
      [|done].
    apply prefix_app_inv in Hp as [Hp|Hp]; congruence.
  - intros Hco. by rewrite (prefix_app_l _ _ suffix Hco).
Qed.

Lemma OnCsvArrived_feedback_witness :
  deployed_script None "reports/etl-process2/"
  = Some "reports/etl-process2/scripts/glue_job_script.py"
  ∧ fire (OnCsvArrived (orchestrator_props prodEtlConfig))
      (Samples.object_created "cat-prod-normalize-reports"
         "reports/etl-process2/scripts/glue_job_script.py")
    = [].
Proof.
  split; [reflexivity|].
  exact (proj1 (OnCsvArrived_feedback (orchestrator_props prodEtlConfig)
                  "reports/etl-process2/" "scripts/glue_job_script.py"
                  (Samples.object_created "cat-prod-normalize-reports"
                     "reports/etl-process2/scripts/glue_job_script.py")
                  eq_refl eq_refl eq_refl eq_refl) eq_refl eq_refl).
Defined.

Lemma falsy_false (v : option string) :
  falsy v = false ↔ ∃ s, v = Some s ∧ s ≠ "".
Proof.
  destruct v as [s|]; simpl.
  - rewrite bool_decide_eq_false. split; [by eauto|]. by intros (? & [= <-] & ?).
  - split; [done|]. by intros (? & ? & _).
Qed.

Lemma falsy_true (v : option string) :
  falsy v = true ↔ v = None ∨ v = Some "".
Proof.
  destruct v as [s|]; simpl.
  - rewrite bool_decide_eq_true. split; [by intros ->; right|].
    by intros [?|[= ->]].
  - split; [by left|done].
Qed.

Lemma first_missing_None (fields : list string) (config : gmap string string) :
  first_missing fields config = None
  ↔ ∀ f, f ∈ fields → falsy (config !! f) = false.
Proof.
  induction fields as [|g fields IH]; simpl.
  - split; [|done]. by intros _ f ?%elem_of_nil.
  - destruct (falsy (config !! g)) eqn:Hg.
    + split; [done|]. intros Hall.
      specialize (Hall g (list_elem_of_here _ _)). congruence.
    + rewrite IH. split.
      * intros Hall f [->|?]%elem_of_cons; [done|by apply Hall].
      * intros Hall f Hf. apply Hall. by right.
Qed.

Lemma first_missing_Some (fields : list string) (config : gmap string string)
    (f : string) :
  first_missing fields config = Some f
  ↔ ∃ before after,
      fields = before ++ f :: after
      ∧ (∀ g, g ∈ before → falsy (config !! g) = false)
      ∧ falsy (config !! f) = true.
Proof.
  induction fields as [|g fields IH]; simpl.
  - split; [done|]. intros (before & after & Heq & _).
    by destruct before.
  - destruct (falsy (config !! g)) eqn:Hg.
    + split.
      * intros [= <-]. exists [], fields. split; [done|].
        split; [by intros ? ?%elem_of_nil|done].
      * intros ([|g' before] & after & Heq & Hbefore & Hf); simpl in Heq.
        -- by injection Heq as ->.
        -- injection Heq as -> ->.
           specialize (Hbefore g' (list_elem_of_here _ _)). congruence.
    + rewrite IH. split.
      * intros (before & after & -> & Hbefore & Hf).
        exists (g :: before), after. split; [done|]. split; [|done].
        intros g' [->|?]%elem_of_cons; [done|by apply Hbefore].
      * intros ([|g' before] & after & Heq & Hbefore & Hf); simpl in Heq.
        -- injection Heq as -> ->. congruence.
        -- injection Heq as -> ->. exists before, after.
           split; [done|]. split; [|done].
           intros g Hin. apply Hbefore. by right.
Qed.

Lemma validateConfig_ok_fields (config : gmap string string) :
  validateConfig config = inr tt →
  (∃ s, config !! "dataBucketName" = Some s ∧ s ≠ "")
  ∧ (∃ s, config !! "cleanPrefix" = Some s ∧ s ≠ "").
Proof.
  unfold validateConfig.
  destruct (first_missing required config) as [f|] eqn:Hfm; [done|].
  intros _. pose proof (proj1 (first_missing_None _ _) Hfm) as Hall.
  split; apply falsy_false, Hall; unfold required.
  - by left.
  - right. by left.
Qed.

(** X18. The validation of the ETL configuration passes exactly when the
    four required fields are all present and non-empty; otherwise it
    reports one field, the first of the list that is missing or empty. *)
Theorem validateConfig_first_missing (config : gmap string string) :
  (validateConfig config = inr tt
   ↔ ∀ f, f ∈ required → ∃ s, config !! f = Some s ∧ s ≠ "")
  ∧ (∀ f, validateConfig config = inl (MissingRequired f)
          ↔ ∃ before after,
              required = before ++ f :: after
              ∧ (∀ g, g ∈ before → ∃ s, config !! g = Some s ∧ s ≠ "")
              ∧ (config !! f = None ∨ config !! f = Some "")).
Proof.
  unfold validateConfig. split.
  - destruct (first_missing required config) as [f|] eqn:Hfm.
    + split; [done|]. intros Hall.
      apply first_missing_Some in Hfm as (before & after & Heq & _ & Hf).
      assert (f ∈ required) as Hin
        by (rewrite Heq; apply elem_of_app; right; by left).
      apply Hall, falsy_false in Hin. congruence.
    + split; [|done]. intros _ f Hf. apply falsy_false.
      by apply (proj1 (first_missing_None _ _) Hfm).
  - intros f. destruct (first_missing required config) as [f'|] eqn:Hfm.
    + split.
      * intros [= <-].
        apply first_missing_Some in Hfm as (before & after & Heq & Hb & Hf).
        exists before, after. split; [done|].
        split; [|by apply falsy_true].
        intros g Hg. by apply falsy_false, Hb.
      * intros (before & after & Heq & Hb & Hf).
        assert (first_missing required config = Some f) as Hfm'.
        { apply first_missing_Some. exists before, after. split; [done|].
          split; [|by apply falsy_true].
          intros g Hg. by apply falsy_false, Hb. }
        congruence.
    + split; [done|]. intros (before & after & Heq & Hb & Hf).
      assert (f ∈ required) as Hin
        by (rewrite Heq; apply elem_of_app; right; by left).
      apply (proj1 (first_missing_None _ _) Hfm) in Hin.
      apply falsy_true in Hf. congruence.
Qed.

(** X19. A storage rule with an empty clean prefix would start the job
    for every object of the bucket; the stack is never built that way:
    its constructor refuses a configuration whose clean prefix is missing
    or empty, and every stack it builds has a non-empty bucket name and a
    non-empty clean prefix. *)
Theorem CatEtlStack_refuses_empty_prefix :
  (∀ (props : OrchestratorProps) (e : Event) (key : string),
     cleanPrefix props = "" →
     ev_source e = "aws.s3" → ev_detail_type e = "Object Created" →
     detail_at ["bucket"; "name"] (ev_detail e) = Some (dataBucket props) →
     detail_at ["object"; "key"] (ev_detail e) = Some key →
     fire (OnCsvArrived props) e
     = [AwsApi "Glue" "startJobRun" [("JobName", glueJobName props)]])
  ∧ (∀ (config : gmap string string) (bucket : string),
       config !! "dataBucketName" = Some bucket → bucket ≠ "" →
       falsy (config !! "cleanPrefix") = true →
       CatEtlStack config = inl (MissingRequired "cleanPrefix"))
  ∧ (∀ (config : gmap string string) (rules : list Rule),
       CatEtlStack config = inr rules →
       rules = CatEtlStack_rules (etl_config_of config)
       ∧ dataBucketName (etl_config_of config) ≠ ""
       ∧ cfg_cleanPrefix (etl_config_of config) ≠ "").
Proof.
  split; [|split].
  - intros props e key Hempty Hsrc Hty Hb Hk.
    rewrite (OnCsvArrived_fire _ _ _ _ Hsrc Hty Hb Hk), Hempty.
    rewrite bool_decide_eq_true_2 by done. by destruct key.
  - intros config bucket Hb Hne Hp. unfold CatEtlStack, validateConfig.
    simpl. rewrite Hb. simpl. rewrite bool_decide_eq_false_2 by done.
    by rewrite Hp.
  - intros config rules. unfold CatEtlStack.
    destruct (validateConfig config) as [err|[]] eqn:Hv; [done|].
    intros [= <-]. split; [done|].
    apply validateConfig_ok_fields in Hv as [Hb Hp].
    destruct Hb as (b & Hb & Hbne), Hp as (p & Hp & Hpne).
    unfold etl_config_of. simpl. by rewrite Hb, Hp.
Qed.

Lemma CatEtlStack_refuses_empty_prefix_witness :
  CatEtlStack {["dataBucketName" := "cat-test-normalize-reports";
                "cleanPrefix" := ""]}
  = inl (MissingRequired "cleanPrefix")
  ∧ CatEtlStack {["environment" := "test";
                  "dataBucketName" := "cat-test-normalize-reports";
                  "cleanPrefix" := "reports/etl-process1/";
                  "curatedPrefix" := "reports/etl-process2/";
                  "athenaResultsPrefix" := "athena/results/"]}
    = inr (CatEtlStack_rules testEtlConfig).
Proof.
  destruct CatEtlStack_refuses_empty_prefix as (_ & Hrefuse & Hbuilt).
  split.
  - by apply (Hrefuse _ "cat-test-normalize-reports").
  - destruct (CatEtlStack {["environment" := "test";
                            "dataBucketName" := "cat-test-normalize-reports";
                            "cleanPrefix" := "reports/etl-process1/";
                            "curatedPrefix" := "reports/etl-process2/";
                            "athenaResultsPrefix" := "athena/results/"]})
      as [err|rules] eqn:Hstack; [by vm_compute in Hstack|].
    by destruct (Hbuilt _ _ Hstack) as (-> & _).
Defined.

(** X20. The deployment script selects the environment from the context,
    else from the variable, else takes test; it refuses every name but
    test and prod; and the stack name, the environment of the selected
    configuration and its bucket always belong to the same
    environment. *)
Theorem select_etl_consistent (context env_var : option string) :
  (∀ c, context = Some c → c ≠ "" →
        select_etl context env_var = select_etl context None)
  ∧ (falsy context = true → falsy env_var = true →
     select_etl context env_var = inr ("cat-test-etl2-stack", testEtlConfig))
  ∧ (∀ err, select_etl context env_var = inl err
            ↔ err = UnknownEnvironment (select_environment context env_var)
              ∧ select_environment context env_var ≠ "test"
              ∧ select_environment context env_var ≠ "prod")
  ∧ (∀ name config,
       select_etl context env_var = inr (name, config) →
       cfg_environment config = select_environment context env_var
       ∧ name = "cat-" +:+ cfg_environment config +:+ "-etl2-stack"
       ∧ dataBucketName config
         = "cat-" +:+ cfg_environment config +:+ "-normalize-reports").
Proof.
  split; [|split; [|split]].
  - intros c -> Hc. unfold select_etl, select_environment. simpl.
    by rewrite !decide_False by done.
  - intros Hc He. apply falsy_true in Hc, He.
    by destruct Hc as [->| ->], He as [->| ->].
  - intros err. unfold select_etl.
    destruct (decide (select_environment context env_var = "test")) as [Ht|Ht];
      [|destruct (decide (select_environment context env_var = "prod")) as [Hp|Hp]].
    + rewrite Ht. simpl. split; [done|]. by intros (_ & ? & _).
    + rewrite Hp. simpl. split; [done|]. by intros (_ & _ & ?).
    + rewrite !bool_decide_eq_true_2 by done. simpl. split.
      * by intros [= <-].
      * by intros (-> & _).
  - intros name config. unfold select_etl.
    destruct (decide (select_environment context env_var = "test")) as [Ht|Ht];
      [|destruct (decide (select_environment context env_var = "prod")) as [Hp|Hp]].
    + rewrite Ht. simpl. by intros [= <- <-].
    + rewrite Hp. simpl. by intros [= <- <-].
    + by rewrite !bool_decide_eq_true_2 by done.
Qed.

Lemma select_etl_consistent_witness :
  select_etl (Some "prod") (Some "test") = select_etl (Some "prod") None
  ∧ select_etl None (Some "") = inr ("cat-test-etl2-stack", testEtlConfig)
  ∧ select_etl (Some "staging") None = inl (UnknownEnvironment "staging").
Proof.
  split; [|split].
  - by apply (proj1 (select_etl_consistent (Some "prod") (Some "test")) "prod").
  - by apply (proj1 (proj2 (select_etl_consistent None (Some "")))).
  - apply (proj1 (proj2 (proj2 (select_etl_consistent (Some "staging") None)))).
    by repeat split.
Defined.

End EtlStackFacts.
